(** * sxs.utilities.sxs_directories: resolution of the SXS cache and config
    directories, and the JSON configuration file kept there.

    The Python module is embedded as state-passing functions over a record
    [World] that holds what the code reads and writes: the process
    environment, the file system, the [functools.lru_cache] of
    [sxs_directory], the warnings emitted and the [atexit] registry.
    Exceptions are values of [Exception]; a computation returns a [Result]
    together with the world it leaves behind.

    What the embedding takes for granted:
    - a POSIX system: paths are [PurePosixPath]s, and a leading [//] is read
      as [/];
    - no symbolic links, so that [Path.resolve] and the kernel agree on the
      lexical reading of [..];
    - an unprivileged process whose umask leaves it the right to write to
      the directories it creates;
    - the default warning filters: [warnings.warn] records and returns;
    - [directory_type] is a string and [persistent] a boolean, passed by
      position or, for [persistent], by keyword. *)

From Stdlib Require Import ZArith Ascii String List Bool Lia.
From stdpp Require Import base option gmap strings list fin_maps.

Local Open Scope string_scope.
#[local] Set Warnings "-register-all".

(** ** Python exceptions *)

Inductive Errno := ENOENT | EEXIST | EACCES | ENOTDIR | EISDIR | ENOSPC.

Inductive Exception :=
| ValueError (msg : string)
| OSError (e : Errno)
| RuntimeError (msg : string)
| AttributeError (msg : string)
| UnboundLocalError (name : string)
| RecursionError.

Inductive Result (A : Type) :=
| Ok (a : A)
| Raise (e : Exception).
Arguments Ok {A} a.
Arguments Raise {A} e.

#[global] Instance Errno_eq_dec : EqDecision Errno.
Proof. solve_decision. Defined.

(** ** Strings *)

Module Str.

(** [str.upper] on the ASCII letters. *)
Definition upper_ascii (c : ascii) : ascii :=
  let n := nat_of_ascii c in
  if (97 <=? n)%nat && (n <=? 122)%nat then ascii_of_nat (n - 32) else c.

Fixpoint upper (s : string) : string :=
  match s with
  | EmptyString => EmptyString
  | String c r => String (upper_ascii c) (upper r)
  end.

(** [s.split("/")]. *)
Fixpoint split (s : string) : list string :=
  match s with
  | EmptyString => [""]
  | String c r =>
      if Ascii.eqb c "/" then "" :: split r
      else match split r with
           | [] => [String c ""]
           | h :: t => String c h :: t
           end
  end.

Definition startswith (s p : string) : bool := String.prefix p s.

Definition nonempty (s : string) : bool := negb (String.eqb s "").

Fixpoint endswith_slash (s : string) : bool :=
  match s with
  | EmptyString => false
  | String c EmptyString => Ascii.eqb c "/"
  | String _ r => endswith_slash r
  end.

(** The line feed of the f-strings. *)
Definition nl : string := String (ascii_of_nat 10) EmptyString.

End Str.

(** ** pathlib.PurePosixPath

    A path is its root flag and its components, kept innermost first, so
    that the parent of a path is the tail of its components.  Empty and
    [.] components are dropped when a path is built, as pathlib does;
    [..] components are kept. *)

Record Path := mkPath { anchored : bool; rparts : list string }.

#[global] Instance Path_eq_dec : EqDecision Path.
Proof. solve_decision. Defined.

Definition proper_part (c : string) : bool :=
  negb (String.eqb c "" || String.eqb c ".").

(** [Path(s)] *)
Definition Path_of (s : string) : Path :=
  {| anchored := Str.startswith s "/";
     rparts := rev (List.filter proper_part (Str.split s)) |}.

(** [Path()] *)
Definition Path_empty : Path := {| anchored := false; rparts := [] |}.

(** [p / q] *)
Definition joinpath (p q : Path) : Path :=
  if anchored q then q
  else {| anchored := anchored p; rparts := rparts q ++ rparts p |}.

Declare Scope path_scope.
Delimit Scope path_scope with path.
Infix "</>" := joinpath (at level 40, left associativity) : path_scope.
Local Open Scope path_scope.

(** [str(p)] *)
Definition Path_str (p : Path) : string :=
  let body := String.concat "/" (rev (rparts p)) in
  if anchored p then "/" +:+ body
  else if Str.nonempty body then body else ".".

(** Lexical removal of [..], outermost component first. *)
Definition normalise (l : list string) : list string :=
  fold_right (fun c acc => if String.eqb c ".." then tail acc else c :: acc) [] l.

(** ** The world of the process *)

(** Python values that JSON can hold. *)
Inductive Value :=
| VNone
| VBool (b : bool)
| VInt (z : Z)
| VStr (s : string)
| VList (l : list Value)
| VDict (d : list (string * Value)).

(** A file-system node.  [w] says whether the process may write to it.  The
    text of a regular file is represented by the JSON document it spells,
    [None] when it spells none. *)
Inductive Node :=
| Dir (w : bool)
| File (w : bool) (content : option Value).

Definition node_writable (n : Node) : bool :=
  match n with Dir w => w | File w _ => w end.

(** The three ways the module and its callers pass the arguments of
    [sxs_directory]; [functools.lru_cache] keeps one entry per way. *)
Inductive Args :=
| Call1 (directory_type : string)
| Call2 (directory_type : string) (persistent : bool)
| CallKw (directory_type : string) (persistent : bool).

#[global] Instance Args_eq_dec : EqDecision Args.
Proof. solve_decision. Defined.

Definition args_directory_type (a : Args) : string :=
  match a with Call1 d | Call2 d _ | CallKw d _ => d end.

Definition args_persistent (a : Args) : bool :=
  match a with Call1 _ => true | Call2 _ p | CallKw _ p => p end.

(** [atexit.register(shutil.rmtree, tmpdir)] *)
Inductive AtExit := Rmtree (dir : string).

Record World := mkWorld {
  environ : gmap string string;          (* os.environ *)
  platform : string;                     (* sys.platform *)
  cwd : list string;                     (* os.getcwd(), innermost first *)
  pw_self : option string;               (* pwd.getpwuid(os.getuid()).pw_dir *)
  pw_name : gmap string string;          (* pwd.getpwnam(name).pw_dir *)
  fs : gmap (list string) Node;          (* absolute paths, innermost first *)
  inodes_free : nat;                     (* directory entries the device can still hold *)
  tempdir : option string;               (* tempfile.tempdir *)
  rng : nat -> string;                   (* tempfile._get_candidate_names() *)
  rng_pos : nat;
  memo : list (Args * Path);             (* lru_cache of sxs_directory, latest first *)
  warnings : list string;                (* warnings.warn *)
  atexit : list AtExit                   (* atexit.register *)
}.

Definition set_environ (e : gmap string string) (w : World) : World :=
  mkWorld e (platform w) (cwd w) (pw_self w) (pw_name w) (fs w) (inodes_free w)
          (tempdir w) (rng w) (rng_pos w) (memo w) (warnings w) (atexit w).

Definition set_fs (f : gmap (list string) Node) (n : nat) (w : World) : World :=
  mkWorld (environ w) (platform w) (cwd w) (pw_self w) (pw_name w) f n
          (tempdir w) (rng w) (rng_pos w) (memo w) (warnings w) (atexit w).

Definition set_tempdir (t : option string) (w : World) : World :=
  mkWorld (environ w) (platform w) (cwd w) (pw_self w) (pw_name w) (fs w) (inodes_free w)
          t (rng w) (rng_pos w) (memo w) (warnings w) (atexit w).

Definition set_rng_pos (n : nat) (w : World) : World :=
  mkWorld (environ w) (platform w) (cwd w) (pw_self w) (pw_name w) (fs w) (inodes_free w)
          (tempdir w) (rng w) n (memo w) (warnings w) (atexit w).

Definition set_memo (m : list (Args * Path)) (w : World) : World :=
  mkWorld (environ w) (platform w) (cwd w) (pw_self w) (pw_name w) (fs w) (inodes_free w)
          (tempdir w) (rng w) (rng_pos w) m (warnings w) (atexit w).

Definition set_warnings (l : list string) (w : World) : World :=
  mkWorld (environ w) (platform w) (cwd w) (pw_self w) (pw_name w) (fs w) (inodes_free w)
          (tempdir w) (rng w) (rng_pos w) (memo w) l (atexit w).

Definition set_atexit (l : list AtExit) (w : World) : World :=
  mkWorld (environ w) (platform w) (cwd w) (pw_self w) (pw_name w) (fs w) (inodes_free w)
          (tempdir w) (rng w) (rng_pos w) (memo w) (warnings w) l.

(** ** Computations: state and exceptions *)

Definition M (A : Type) : Type := World -> Result A * World.

Definition ret {A} (a : A) : M A := fun w => (Ok a, w).

Definition raise {A} (e : Exception) : M A := fun w => (Raise e, w).

Definition bind {A B} (m : M A) (k : A -> M B) : M B :=
  fun w => match m w with
           | (Ok a, w') => k a w'
           | (Raise e, w') => (Raise e, w')
           end.

(** [try: m  except OSError: h  else: k] *)
Definition try_except_OSError {A B} (m : M A) (h : M B) (k : A -> M B) : M B :=
  fun w => match m w with
           | (Ok a, w') => k a w'
           | (Raise (OSError _), w') => h w'
           | (Raise e, w') => (Raise e, w')
           end.

Definition get {A} (f : World -> A) : M A := fun w => (Ok (f w), w).

Definition modify (f : World -> World) : M unit := fun w => (Ok tt, f w).

Declare Scope py_scope.
Delimit Scope py_scope with py.
Notation "x <- m ;; k" := (bind m (fun x => k))
  (at level 100, m at next level, right associativity) : py_scope.
Notation "m ;;; k" := (bind m (fun _ => k))
  (at level 100, right associativity) : py_scope.
Local Open Scope py_scope.

(** ** The operating system

    The file system has directories and regular files and no symbolic
    links, so a path names the node found by removing [..] lexically.  The
    process is unprivileged: it writes where the node's flag allows.  A new
    directory or file takes one of the [inodes_free] entries of the
    device and is created writable. *)

(** The absolute location a path names, relative paths starting at the
    working directory. *)
Definition key (w : World) (p : Path) : list string :=
  normalise (rparts p ++ (if anchored p then [] else cwd w)).

Definition stat (p : Path) (w : World) : option Node := fs w !! key w p.

(** [Path.exists] *)
Definition Path_exists (p : Path) : M bool :=
  get (fun w => bool_decide (is_Some (stat p w))).

(** [Path.is_dir] *)
Definition is_dir_at (p : Path) (w : World) : bool :=
  match stat p w with Some (Dir _) => true | _ => false end.

Definition Path_is_dir (p : Path) : M bool := get (is_dir_at p).

(** [os.access(str(p), os.W_OK)] *)
Definition writable_at (p : Path) (w : World) : bool :=
  match stat p w with Some n => node_writable n | None => false end.

Definition os_access_W_OK (p : Path) : M bool := get (writable_at p).

(** [os.mkdir] *)
Definition os_mkdir (p : Path) : M unit := fun w =>
  match key w p with
  | [] => (Raise (OSError EEXIST), w)
  | c :: parent =>
      match fs w !! parent with
      | None => (Raise (OSError ENOENT), w)
      | Some (File _ _) => (Raise (OSError ENOTDIR), w)
      | Some (Dir pw) =>
          match fs w !! (c :: parent) with
          | Some _ => (Raise (OSError EEXIST), w)
          | None =>
              if negb pw then (Raise (OSError EACCES), w)
              else match inodes_free w with
                   | O => (Raise (OSError ENOSPC), w)
                   | S n => (Ok tt, set_fs (<[c :: parent := Dir true]> (fs w)) n w)
                   end
          end
      end
  end.

(** [Path.mkdir(parents=False, exist_ok=exist_ok)]: [FileNotFoundError] is
    raised again, any other [OSError] is dropped when [exist_ok] is set and
    the path is a directory. *)
Definition Path_mkdir_here (p : Path) (exist_ok : bool) : M unit := fun w =>
  match os_mkdir p w with
  | (Ok tt, w') => (Ok tt, w')
  | (Raise (OSError ENOENT), w') => (Raise (OSError ENOENT), w')
  | (Raise e, w') =>
      if exist_ok && is_dir_at p w' then (Ok tt, w') else (Raise e, w')
  end.

(** [Path.mkdir(parents=parents, exist_ok=exist_ok)], by recursion on the
    components as pathlib recurses on [self.parent]. *)
Fixpoint Path_mkdir_parts (anch : bool) (parts : list string)
    (parents exist_ok : bool) : M unit := fun w =>
  match os_mkdir (mkPath anch parts) w with
  | (Ok tt, w') => (Ok tt, w')
  | (Raise (OSError ENOENT), w') =>
      match parts with
      | [] => (Raise (OSError ENOENT), w')
      | _ :: parent =>
          if negb parents then (Raise (OSError ENOENT), w')
          else match Path_mkdir_parts anch parent true true w' with
               | (Ok _, w1) => Path_mkdir_here (mkPath anch parts) exist_ok w1
               | (Raise e, w1) => (Raise e, w1)
               end
      end
  | (Raise e, w') =>
      if exist_ok && is_dir_at (mkPath anch parts) w' then (Ok tt, w')
      else (Raise e, w')
  end.

Definition Path_mkdir (p : Path) (parents exist_ok : bool) : M unit :=
  Path_mkdir_parts (anchored p) (rparts p) parents exist_ok.

(** [Path.resolve]: absolute, without [..]. *)
Definition Path_resolve (p : Path) : M Path :=
  get (fun w => mkPath true (key w p)).

(** [os.path.expanduser] on a first component [~] or [~name]; the
    argument comes back unchanged when the home directory is unknown. *)
Definition os_path_expanduser (part : string) (w : World) : string :=
  let name := match part with String _ r => r | EmptyString => "" end in
  let userhome :=
    if Str.nonempty name then pw_name w !! name
    else match environ w !! "HOME" with
         | Some h => Some h
         | None => pw_self w
         end in
  match userhome with
  | None => part
  | Some h => if Str.nonempty h then h else "/"
  end.

(** [Path.expanduser] *)
Definition Path_expanduser (p : Path) : M Path := fun w =>
  match anchored p, rev (rparts p) with
  | false, first :: rest =>
      if Str.startswith first "~" then
        let homedir := os_path_expanduser first w in
        if Str.startswith homedir "~"
        then (Raise (RuntimeError "Could not determine home directory."), w)
        else (Ok (Path_of homedir </> mkPath false (rev rest)), w)
      else (Ok p, w)
  | _, _ => (Ok p, w)
  end.

(** [Path.home()] *)
Definition Path_home : M Path := Path_expanduser (Path_of "~").

(** [os.getenv(name, default=False)] and [os.environ.get(name)] *)
Definition os_getenv (name : string) : M (option string) :=
  get (fun w => environ w !! name).

(** [os.environ[name] = value] *)
Definition os_putenv (name value : string) : M unit :=
  modify (fun w => set_environ (<[name := value]> (environ w)) w).

(** [warnings.warn(message)] *)
Definition warnings_warn (message : string) : M unit :=
  modify (fun w => set_warnings (warnings w ++ [message]) w).

(** [atexit.register(shutil.rmtree, tmpdir)] *)
Definition atexit_register_rmtree (dir : string) : M unit :=
  modify (fun w => set_atexit (atexit w ++ [Rmtree dir]) w).

(** ** tempfile *)

Definition TMP_MAX : nat := 100 * 100.

(** [os.path.abspath] *)
Definition os_path_abspath (s : string) (w : World) : string :=
  Path_str (mkPath true (key w (Path_of s))).

(** [os.path.join(dir, name)] for a relative [name] *)
Definition os_path_join (dir name : string) : string :=
  if Str.nonempty dir && negb (Str.endswith_slash dir)
  then dir +:+ "/" +:+ name else dir +:+ name.

(** [tempfile._candidate_tempdir_list], each made absolute *)
Definition candidate_tempdir_list (w : World) : list string :=
  let from_env := omap (fun v => match environ w !! v with
                                 | Some d => if Str.nonempty d then Some d else None
                                 | None => None
                                 end) ["TMPDIR"; "TEMP"; "TMP"] in
  List.map (fun d => os_path_abspath d w)
           (from_env ++ ["/tmp"; "/var/tmp"; "/usr/tmp"; Path_str (mkPath true (cwd w))]).

(** A directory in which the probe file of [tempfile._get_default_tempdir]
    can be created, written and removed. *)
Definition usable_tempdir (w : World) (d : string) : bool :=
  is_dir_at (Path_of d) w && writable_at (Path_of d) w && (0 <? inodes_free w)%nat.

(** [tempfile.gettempdir] *)
Definition tempfile_gettempdir : M string := fun w =>
  match tempdir w with
  | Some d => (Ok d, w)
  | None =>
      match List.find (usable_tempdir w) (candidate_tempdir_list w) with
      | Some d => (Ok d, set_tempdir (Some d) w)
      | None => (Raise (OSError ENOENT), w)
      end
  end.

(** The loop of [tempfile.mkdtemp]: a name that exists is skipped, any
    other failure of [os.mkdir] is raised, and the names run out after
    [TMP_MAX] attempts. *)
Fixpoint mkdtemp_loop (attempts : nat) (dir prefix : string) : M string := fun w =>
  match attempts with
  | O => (Raise (OSError EEXIST), w)
  | S n =>
      let name := rng w (rng_pos w) in
      let file := os_path_join dir (prefix +:+ name) in
      match os_mkdir (Path_of file) (set_rng_pos (S (rng_pos w)) w) with
      | (Ok tt, w') => (Ok file, w')
      | (Raise (OSError EEXIST), w') => mkdtemp_loop n dir prefix w'
      | (Raise e, w') => (Raise e, w')
      end
  end.

(** [tempfile.mkdtemp(prefix=prefix)] *)
Definition tempfile_mkdtemp (prefix : string) : M string :=
  dir <- tempfile_gettempdir ;;
  mkdtemp_loop TMP_MAX dir prefix.

(** ** functools.lru_cache *)

Definition cache_get (k : Args) (m : list (Args * Path)) : option Path :=
  snd <$> List.find (fun kv => bool_decide (kv.1 = k)) m.

Definition cache_del (k : Args) (m : list (Args * Path)) : list (Args * Path) :=
  List.filter (fun kv => negb (bool_decide (kv.1 = k))) m.

(** A hit moves the entry to the front.  A miss runs the function; its
    result is stored in front, the oldest entry making room when the cache
    is full, unless the key was stored while the function ran.  An
    exception is not stored. *)
Definition lru_cache (maxsize : nat) (user_function : Args -> M Path) (k : Args) : M Path :=
  fun w =>
    match cache_get k (memo w) with
    | Some result => (Ok result, set_memo ((k, result) :: cache_del k (memo w)) w)
    | None =>
        match user_function k w with
        | (Ok result, w') =>
            match cache_get k (memo w') with
            | Some _ => (Ok result, w')
            | None =>
                let kept := if (maxsize <=? length (memo w'))%nat
                            then removelast (memo w') else memo w' in
                (Ok result, set_memo ((k, result) :: kept) w')
            end
        | (Raise e, w') => (Raise e, w')
        end
    end.

(** ** sxs_directory *)

Inductive Searched :=
| Found (sxs_dir : Path)
| Unwritable (unwritable_dir : Path).

(** [SXS{directory_type.upper()}DIR] *)
Definition override_name (directory_type : string) : string :=
  "SXS" +:+ Str.upper directory_type +:+ "DIR".

Definition truthy (v : option string) : bool :=
  match v with Some s => Str.nonempty s | None => false end.

(** Lines 116-124: the persistent candidate. *)
Definition candidate (directory_type : string) (suffix : Path) : M Path :=
  sxs_dir <- os_getenv (override_name directory_type) ;;
  if truthy sxs_dir then
    p <- Path_expanduser (Path_of (default "" sxs_dir)) ;;
    Path_resolve p
  else
    plat <- get platform ;;
    if Str.startswith plat "linux" || Str.startswith plat "freebsd" then
      x <- os_getenv ("XDG_" +:+ Str.upper directory_type +:+ "_HOME") ;;
      xdg_base <- (if truthy x then ret (Path_of (default "" x))
                   else (h <- Path_home ;; ret (h </> Path_of ("." +:+ directory_type)))) ;;
      p <- Path_expanduser xdg_base ;;
      r <- Path_resolve p ;;
      ret (r </> Path_of "sxs")
    else
      h <- Path_home ;;
      ret (h </> Path_of ".sxs" </> suffix).

(** Lines 126-132 and 141-147: create the directory, dropping an
    [OSError], and say whether it is now a writable directory. *)
Definition make_writable (sxs_dir : Path) (parents : bool) : M bool :=
  try_except_OSError (Path_mkdir sxs_dir parents true)
    (ret false)
    (fun _ => a <- os_access_W_OK sxs_dir ;;
              if a then Path_is_dir sxs_dir else ret false).

(** Lines 115-134. *)
Definition persistent_search (directory_type : string) (suffix : Path) : M Searched :=
  sxs_dir <- candidate directory_type suffix ;;
  ok <- make_writable sxs_dir true ;;
  ret (if ok then Found sxs_dir else Unwritable sxs_dir).

(** Lines 139-147: the cache directory inside the config directory. *)
Definition nested_cache (self : Args -> M Path) (persistent : bool) : M (option Path) :=
  c <- self (CallKw "config" persistent) ;;
  let sxs_dir := c </> Path_of "cache" in
  ok <- make_writable sxs_dir false ;;
  ret (if ok then Some sxs_dir else None).

Definition message (directory_type : string) (sxs_dir unwritable_dir : Path) : string :=
  Str.nl +:+ "The `sxs` module created a temporary " +:+ directory_type
    +:+ " directory at " +:+ Path_str sxs_dir +:+ Str.nl
    +:+ "because the default path (" +:+ Path_str unwritable_dir
    +:+ ") is not a writable directory;" +:+ Str.nl
    +:+ "it is highly recommended to set the SXS" +:+ Str.upper directory_type
    +:+ "DIR environment" +:+ Str.nl
    +:+ "variable to a writable directory to enable caching of downloaded waveforms.".

(** Lines 151-164: the temporary directory. *)
Definition temporary_directory (directory_type : string) (suffix : Path)
    (persistent : bool) (unwritable_dir : option Path) : M Path :=
  tmpdir <- tempfile_mkdtemp "sxs-" ;;
  os_putenv (override_name directory_type) tmpdir ;;;
  atexit_register_rmtree tmpdir ;;;
  let sxs_dir := Path_of tmpdir </> suffix in
  (if persistent then
     match unwritable_dir with
     | Some u => warnings_warn (message directory_type sxs_dir u)
     | None => raise (UnboundLocalError "unwritable_dir")
     end
   else ret tt) ;;;
  (if String.eqb directory_type "cache" then Path_mkdir sxs_dir false true else ret tt) ;;;
  ret sxs_dir.

Definition invalid_message (directory_type : string) : string :=
  "Can only find 'cache' or 'config' directories, not '" +:+ directory_type +:+ "'".

(** The body of [sxs_directory]; [self] is the decorated function that the
    body calls at line 140. *)
Definition sxs_directory_body (self : Args -> M Path)
    (directory_type : string) (persistent : bool) : M Path :=
  if negb (bool_decide (directory_type ∈ ["cache"; "config"]))
  then raise (ValueError (invalid_message directory_type))
  else
    let suffix := if String.eqb directory_type "cache" then Path_of "cache" else Path_empty in
    s <- (if persistent then
            r <- persistent_search directory_type suffix ;; ret (Some r)
          else ret None) ;;
    match s with
    | Some (Found sxs_dir) => ret sxs_dir
    | _ =>
        let unwritable_dir := match s with Some (Unwritable u) => Some u | _ => None end in
        n <- (if String.eqb directory_type "cache"
              then nested_cache self persistent else ret None) ;;
        match n with
        | Some sxs_dir => ret sxs_dir
        | None => temporary_directory directory_type suffix persistent unwritable_dir
        end
    end.

(** [@functools.lru_cache()] has [maxsize=128]. *)
Definition maxsize : nat := 128.

(** The decorated function.  [depth] bounds the nesting of calls as the
    interpreter's recursion limit does. *)
Fixpoint sxs_directory_at (depth : nat) (a : Args) : M Path :=
  match depth with
  | O => raise RecursionError
  | S d =>
      lru_cache maxsize
        (fun a => sxs_directory_body (sxs_directory_at d)
                    (args_directory_type a) (args_persistent a)) a
  end.

(** [sys.getrecursionlimit()] *)
Definition recursion_limit : nat := 1000.

Definition sxs_directory : Args -> M Path := sxs_directory_at recursion_limit.

(** ** Objects, files and json *)

(** An open text file. *)
Record TextIO := mkTextIO { file_key : list string }.

(** The objects the configuration functions handle: a value, a
    [pathlib.Path], an open file. *)
Inductive PyObject :=
| ObjValue (v : Value)
| ObjPath (p : Path)
| ObjFile (f : TextIO).

Definition type_name (o : PyObject) : string :=
  match o with
  | ObjValue VNone => "NoneType"
  | ObjValue (VBool _) => "bool"
  | ObjValue (VInt _) => "int"
  | ObjValue (VStr _) => "str"
  | ObjValue (VList _) => "list"
  | ObjValue (VDict _) => "dict"
  | ObjPath _ => "PosixPath"
  | ObjFile _ => "_io.TextIOWrapper"
  end.

Definition no_attribute {A} (o : PyObject) (name : string) : M A :=
  raise (AttributeError ("'" +:+ type_name o +:+ "' object has no attribute '" +:+ name +:+ "'")).

(** [Path.open(mode)] for the modes [r] and [w]. *)
Definition Path_open (p : Path) (mode : string) : M TextIO := fun w =>
  let k := key w p in
  match fs w !! k with
  | Some (Dir _) => (Raise (OSError EISDIR), w)
  | Some (File fw content) =>
      if String.eqb mode "r" then (Ok (mkTextIO k), w)
      else if negb (String.eqb mode "w") then (Raise (ValueError "invalid mode"), w)
      else if fw then (Ok (mkTextIO k), set_fs (<[k := File fw None]> (fs w)) (inodes_free w) w)
      else (Raise (OSError EACCES), w)
  | None =>
      if String.eqb mode "r" then (Raise (OSError ENOENT), w)
      else if negb (String.eqb mode "w") then (Raise (ValueError "invalid mode"), w)
      else match k with
           | [] => (Raise (OSError EISDIR), w)
           | _ :: parent =>
               match fs w !! parent, inodes_free w with
               | None, _ => (Raise (OSError ENOENT), w)
               | Some (File _ _), _ => (Raise (OSError ENOTDIR), w)
               | Some (Dir false), _ => (Raise (OSError EACCES), w)
               | Some (Dir true), O => (Raise (OSError ENOSPC), w)
               | Some (Dir true), S n =>
                   (Ok (mkTextIO k), set_fs (<[k := File true None]> (fs w)) n w)
               end
           end
  end.

(** [o.open(mode)] *)
Definition py_open (o : PyObject) (mode : string) : M TextIO :=
  match o with
  | ObjPath p => Path_open p mode
  | _ => no_attribute o "open"
  end.

(** [o.read()], the document of the file *)
Definition py_read (o : PyObject) : M (option Value) :=
  match o with
  | ObjFile f => get (fun w => match fs w !! file_key f with
                               | Some (File _ content) => content
                               | _ => None
                               end)
  | _ => no_attribute o "read"
  end.

(** [o.write(text)], with the document the text spells *)
Definition py_write (o : PyObject) (doc : Value) : M unit :=
  match o with
  | ObjFile f => modify (fun w => match fs w !! file_key f with
                                  | Some (File fw _) =>
                                      set_fs (<[file_key f := File fw (Some doc)]> (fs w))
                                             (inodes_free w) w
                                  | _ => w
                                  end)
  | _ => no_attribute o "write"
  end.

(** [json.load(fp)] is [json.loads(fp.read())]. *)
Definition json_load (fp : PyObject) : M Value :=
  doc <- py_read fp ;;
  match doc with
  | Some v => ret v
  | None => raise (ValueError "Expecting value")
  end.

(** [json.dump(obj, fp, indent=4, separators=(',', ': '))] *)
Definition json_dump (obj : Value) (fp : PyObject) : M unit := py_write fp obj.

Definition dict_lookup (k : string) (d : list (string * Value)) : option Value :=
  snd <$> List.find (fun kv => String.eqb kv.1 k) d.

Fixpoint dict_set (k : string) (v : Value) (d : list (string * Value)) : list (string * Value) :=
  match d with
  | [] => [(k, v)]
  | (k', v') :: r => if String.eqb k' k then (k, v) :: r else (k', v') :: dict_set k v r
  end.

(** [config.get(key, default)] *)
Definition py_get (config : Value) (k : string) (default : Value) : M Value :=
  match config with
  | VDict d => ret (from_option id default (dict_lookup k d))
  | _ => no_attribute (ObjValue config) "get"
  end.

(** [config.update] with the keyword arguments, giving the dictionary after
    the update *)
Definition py_update (config : Value) (kwargs : list (string * Value)) : M Value :=
  match config with
  | VDict d => ret (VDict (fold_left (fun acc kv => dict_set kv.1 kv.2 acc) kwargs d))
  | _ => no_attribute (ObjValue config) "update"
  end.

(** ** read_config and write_config *)

Definition read_config (k : option string) (default : Value) : M Value :=
  d <- sxs_directory (Call1 "config") ;;
  let config_path := d </> Path_of "config.json" in
  e <- Path_exists config_path ;;
  config <- (if e then json_load (ObjPath config_path) else ret (VDict [])) ;;
  match k with
  | None => ret config
  | Some k => py_get config k default
  end.

Definition write_config (kwargs : list (string * Value)) : M unit :=
  d <- sxs_directory (Call1 "config") ;;
  let config_path := d </> Path_of "config.json" in
  e <- Path_exists config_path ;;
  config <- (if e then json_load (ObjPath config_path) else ret (VDict [])) ;;
  config <- py_update config kwargs ;;
  c <- py_open (ObjValue config) "w" ;;
  json_dump config (ObjFile c).

(** * Vocabulary of the properties *)

(** [keeps R m]: the worlds before and after [m] are related by [R],
    whether [m] returns or raises. *)
Definition keeps {A} (R : World -> World -> Prop) (m : M A) : Prop :=
  forall w r w', m w = (r, w') -> R w w'.

(** Every node lies in a directory. *)
Definition fs_wf (f : gmap (list string) Node) : Prop :=
  forall c p n, f !! (c :: p) = Some n -> exists dw, f !! p = Some (Dir dw).

(** The same, as a test. *)
Definition fs_wfb (f : gmap (list string) Node) : bool :=
  forallb (fun kv => match kv.1 with
                     | [] => true
                     | _ :: p => match f !! p with Some (Dir _) => true | _ => false end
                     end) (map_to_list f).

(** [f'] is [f] with new writable directories, and nothing else. *)
Definition fs_grows (f f' : gmap (list string) Node) : Prop :=
  forall k, f' !! k = f !! k \/ (f !! k = None /\ f' !! k = Some (Dir true)).

(** The part of the world the file operations leave alone or extend. *)
Record evolves (w w' : World) : Prop := {
  ev_cwd : cwd w' = cwd w;
  ev_grows : fs_grows (fs w) (fs w');
  ev_wf : fs_wf (fs w) -> fs_wf (fs w')
}.

(** [throws P m]: an exception that [m] raises satisfies [P]. *)
Definition throws {A} (P : Exception -> Prop) (m : M A) : Prop :=
  forall w e w', m w = (Raise e, w') -> P e.

Definition is_OSError (e : Exception) : Prop := exists errno, e = OSError errno.

(** The environment, the cache, the warnings and the exit handlers are
    as they were. *)
Record quiet (w w' : World) : Prop := {
  q_environ : environ w' = environ w;
  q_memo : memo w' = memo w;
  q_warnings : warnings w' = warnings w;
  q_atexit : atexit w' = atexit w
}.

Definition same {A} (f : World -> A) (w w' : World) : Prop := f w' = f w.

(** [t] names a directory that did not exist in [w] and that [w'] has, new,
    empty and writable. *)
Record created (t : string) (w w' : World) : Prop := {
  cr_parent : exists c parent, key w (Path_of t) = c :: parent /\ fs w !! parent = Some (Dir true);
  cr_fresh : fs w !! key w (Path_of t) = None;
  cr_fs : fs w' = <[key w (Path_of t) := Dir true]> (fs w);
  cr_inodes : inodes_free w = S (inodes_free w');
  cr_cwd : cwd w' = cwd w;
  cr_quiet : quiet w w'
}.

(** The world after lines 151-161, [w1] being the world in which
    [tempfile.mkdtemp] returned [tmpdir]. *)
Definition announced (directory_type : string) (sxs_dir : Path) (persistent : bool)
    (unwritable_dir : option Path) (tmpdir : string) (w1 : World) : World :=
  let w2 := set_atexit (atexit w1 ++ [Rmtree tmpdir])
              (set_environ (<[override_name directory_type := tmpdir]> (environ w1)) w1) in
  match persistent, unwritable_dir with
  | true, Some u => set_warnings (warnings w2 ++ [message directory_type sxs_dir u]) w2
  | _, _ => w2
  end.

(** The two directory types of line 110. *)
Definition valid (directory_type : string) : Prop :=
  directory_type = "cache" \/ directory_type = "config".

(** Line 113. *)
Definition suffix_of (directory_type : string) : Path :=
  if String.eqb directory_type "cache" then Path_of "cache" else Path_empty.

(** Lines 115-134: what the persistent search leaves, [None] when
    [persistent] is false. *)
Definition first_tier (directory_type : string) (persistent : bool) : M (option Searched) :=
  if persistent then
    r <- persistent_search directory_type (suffix_of directory_type) ;; ret (Some r)
  else ret None.

Definition unwritable_of (s : option Searched) : option Path :=
  match s with Some (Unwritable u) => Some u | _ => None end.

Definition found_of (s : option Searched) : option Path :=
  match s with Some (Found d) => Some d | _ => None end.

(** The entries of the cache have distinct keys, each a call that
    returned. *)
Definition memo_ok (m : list (Args * Path)) : Prop :=
  NoDup m.*1 /\ Forall (fun k => valid (args_directory_type k)) m.*1.

#[global] Instance valid_dec d : Decision (valid d).
Proof. unfold valid. apply _. Defined.

#[global] Instance memo_ok_dec m : Decision (memo_ok m).
Proof. unfold memo_ok. apply _. Defined.

(** The calls of [Args] that can return, ten in all.  The source takes
    [directory_type] by keyword too, and any hashable [persistent]; such
    calls have entries of their own in the cache and lie outside [Args]. *)
Definition all_calls : list Args :=
  [Call1 "cache"; Call1 "config";
   Call2 "cache" true; Call2 "cache" false; Call2 "config" true; Call2 "config" false;
   CallKw "cache" true; CallKw "cache" false; CallKw "config" true; CallKw "config" false].

(** How a computation may change the cache: it stays well formed, keeps
    its entries, and gains keys among [extra] only. *)
Record memo_rel (extra : list Args) (w w' : World) : Prop := {
  mr_ok : memo_ok (memo w) -> memo_ok (memo w');
  mr_keep : memo_ok (memo w) ->
            forall k v, cache_get k (memo w) = Some v -> cache_get k (memo w') = Some v;
  mr_new : forall k, k ∈ (memo w').*1 -> k ∈ (memo w).*1 \/ k ∈ extra
}.

(** What is known of a call of the decorated function. *)
Record call_ok (a : Args) (r : Result Path) (w w' : World) : Prop := {
  co_evolves : evolves w w';
  co_memo : memo_rel (a :: if String.eqb (args_directory_type a) "cache"
                           then [CallKw "config" (args_persistent a)] else []) w w';
  co_result : memo_ok (memo w) -> forall v, r = Ok v -> cache_get a (memo w') = Some v
}.

(** Between two calls the process may call [sxs_directory] again, and
    anything but the cache may change: the environment, the file system,
    the working directory. *)
Inductive Event :=
| Calls (a : Args)
| Outside (change : World -> World).

(** The world after an event; a change from outside leaves the cache,
    which lives inside the function object. *)
Definition step (w : World) (ev : Event) : World :=
  match ev with
  | Calls a => (sxs_directory a w).2
  | Outside change => set_memo (memo w) (change w)
  end.

Definition run (evs : list Event) (w : World) : World := fold_left step evs w.

(** What [Path.expanduser] raises when it finds no home directory. *)
Definition home_unknown : Exception := RuntimeError "Could not determine home directory.".

(** The three places from which an exception leaves [sxs_directory] when
    the directory type is valid; [w'] is the world at the raise. *)
Inductive raised_at (e : Exception) (w' : World) : Prop :=
| at_expanduser :
    (* lines 119, 121, 122, 124: the home directory of [~] or [~name] *)
    e = home_unknown -> raised_at e w'
| at_mkdtemp w0 :
    (* line 151 *)
    is_OSError e -> tempfile_mkdtemp "sxs-" w0 = (Raise e, w') -> raised_at e w'
| at_final_mkdir w0 tmpdir :
    (* line 163, after line 151 has made [tmpdir] *)
    is_OSError e ->
    environ w0 !! override_name "cache" = Some tmpdir ->
    Path_mkdir (Path_of tmpdir </> Path_of "cache") false true w0 = (Raise e, w') ->
    raised_at e w'.

(** Lines 113-147: [inl] the directory the call returns from there, [inr]
    the value of [unwritable_dir] with which it goes on to line 151. *)
Definition earlier_tiers (directory_type : string) (persistent : bool) : M (Path + option Path) :=
  s <- first_tier directory_type persistent ;;
  match found_of s with
  | Some sxs_dir => ret (inl sxs_dir)
  | None =>
      if String.eqb directory_type "cache" then
        n <- nested_cache sxs_directory persistent ;;
        ret (match n with Some sxs_dir => inl sxs_dir | None => inr (unwritable_of s) end)
      else ret (inr (unwritable_of s))
  end.

(** What a call returns when its body ends as the computation [m] does in
    the world [w0]. *)
Definition ends_as (a : Args) (w : World) (m : M Path) (w0 : World) : Prop :=
  match m w0 with
  | (Ok d, w') => exists c, sxs_directory a w = (Ok d, set_memo c w')
  | (Raise e, w') => sxs_directory a w = (Raise e, w')
  end.

(** The two attribute errors of the configuration functions. *)
Definition no_read : Exception :=
  AttributeError "'PosixPath' object has no attribute 'read'".

Definition no_open : Exception :=
  AttributeError "'dict' object has no attribute 'open'".

(** ** Vocabulary of the further properties *)

(** Every variable but the two overrides is as it was. *)
Definition other_variables_kept (w w' : World) : Prop :=
  forall name, name <> "SXSCACHEDIR" -> name <> "SXSCONFIGDIR" ->
               environ w' !! name = environ w !! name.

(** The value of [candidate], which leaves the world as it is. *)
Definition candidate_value (directory_type : string) (suffix : Path) (w : World) : Result Path :=
  let expand p k := match (Path_expanduser p w).1 with Ok q => k q | Raise e => Raise e end in
  let v := environ w !! override_name directory_type in
  if truthy v then
    expand (Path_of (default "" v)) (fun p => Ok (mkPath true (key w p)))
  else if Str.startswith (platform w) "linux" || Str.startswith (platform w) "freebsd" then
    let x := environ w !! ("XDG_" +:+ Str.upper directory_type +:+ "_HOME") in
    let resolve_sxs xdg_base :=
      expand xdg_base (fun p => Ok (mkPath true (key w p) </> Path_of "sxs")) in
    if truthy x then resolve_sxs (Path_of (default "" x))
    else expand (Path_of "~") (fun h => resolve_sxs (h </> Path_of ("." +:+ directory_type)))
  else
    expand (Path_of "~") (fun h => Ok (h </> Path_of ".sxs" </> suffix)).

(** [XDG_{directory_type.upper()}_HOME] *)
Definition xdg_name (directory_type : string) : string :=
  "XDG_" +:+ Str.upper directory_type +:+ "_HOME".

(** What [candidate] reads of the world. *)
Record host_kept (w w' : World) : Prop := {
  hk_environ : environ w' = environ w;
  hk_platform : platform w' = platform w;
  hk_cwd : cwd w' = cwd w;
  hk_pw_self : pw_self w' = pw_self w;
  hk_pw_name : pw_name w' = pw_name w
}.

(** Nothing leaves the list of [atexit], and a variable that has a new value
    names a directory registered for removal. *)
Definition registered (w w' : World) : Prop :=
  (forall x, In x (atexit w) -> In x (atexit w')) /\
  (forall name t, environ w' !! name = Some t -> environ w !! name <> Some t ->
                  In (Rmtree t) (atexit w')).

(** A call to one of the three functions of the module. *)
Inductive Operation :=
| Directory (a : Args)
| ReadConfig (k : option string) (default : Value)
| WriteConfig (kwargs : list (string * Value)).

(** The world after a call, whether it returned or raised. *)
Definition perform (o : Operation) (w : World) : World :=
  match o with
  | Directory a => (sxs_directory a w).2
  | ReadConfig k default => (read_config k default w).2
  | WriteConfig kwargs => (write_config kwargs w).2
  end.

(** The world after a sequence of calls. *)
Definition session (ops : list Operation) (w : World) : World :=
  fold_left (fun w o => perform o w) ops w.

(** * Sample worlds *)

(** The names [tempfile] draws: [a], [b], [c], ... *)
Definition letters (n : nat) : string := String (ascii_of_nat (97 + n)) "".

(** A Linux account with a writable home and a writable [/tmp]. *)
Definition w_linux : World :=
  mkWorld {[ "HOME" := "/home/u" ]} "linux" ["u"; "home"] (Some "/home/u") ∅
    (list_to_map [([], Dir false); (["home"], Dir false); (["u"; "home"], Dir true);
                  (["tmp"], Dir true)])
    100 None letters 0 [] [] [].

(** The same account when the home directory is read-only. *)
Definition w_readonly_home : World :=
  set_fs (list_to_map [([], Dir false); (["home"], Dir false); (["u"; "home"], Dir false);
                       (["tmp"], Dir true)]) 100 w_linux.

(** A macOS account whose [~/.sxs/cache] is a regular file, on a device
    with room for one more directory. *)
Definition w_full : World :=
  mkWorld {[ "HOME" := "/Users/u" ]} "darwin" ["u"; "Users"] (Some "/Users/u") ∅
    (list_to_map [([], Dir false); (["Users"], Dir false); (["u"; "Users"], Dir true);
                  ([".sxs"; "u"; "Users"], Dir true);
                  (["cache"; ".sxs"; "u"; "Users"], File true None);
                  (["tmp"], Dir true)])
    1 None letters 0 [] [] [].

(** [w_full] with room for two directories. *)
Definition w_roomy : World := set_fs (fs w_full) 2 w_full.

(** A Linux account with [SXSCACHEDIR=~/data/../sxs-cache], a directory
    that exists. *)
Definition w_override : World :=
  mkWorld {[ "HOME" := "/home/u"; "SXSCACHEDIR" := "~/data/../sxs-cache";
             "XDG_CACHE_HOME" := "/home/u/xdg" ]}
    "linux" ["u"; "home"] (Some "/home/u") ∅
    (list_to_map [([], Dir false); (["home"], Dir false); (["u"; "home"], Dir true);
                  (["sxs-cache"; "u"; "home"], Dir true); (["tmp"], Dir true)])
    100 None letters 0 [] [] [].

(** [w_linux] with a configuration file in place. *)
Definition w_configured : World :=
  set_fs (list_to_map [([], Dir false); (["home"], Dir false); (["u"; "home"], Dir true);
                       ([".config"; "u"; "home"], Dir true);
                       (["sxs"; ".config"; "u"; "home"], Dir true);
                       (["config.json"; "sxs"; ".config"; "u"; "home"],
                        File true (Some (VDict [("download", VBool true)])));
                       (["tmp"], Dir true)]) 100 w_linux.

(** The account of [w_linux] with nowhere to write. *)
Definition w_nowhere : World :=
  set_fs (list_to_map [([], Dir false); (["home"], Dir false); (["u"; "home"], Dir false);
                       (["tmp"], Dir false)]) 100 w_linux.

(** * Properties *)

(** ** Paths *)

Example Path_of_abs : Path_of "/home/u/.cache" = mkPath true [".cache"; "u"; "home"].
Proof. reflexivity. Qed.
Example Path_of_rel : Path_of "a//b/./c/" = mkPath false ["c"; "b"; "a"].
Proof. reflexivity. Qed.
Example Path_of_dot : Path_of "" = Path_empty /\ Path_of "." = Path_empty.
Proof. split; reflexivity. Qed.
Example Path_str_abs : Path_str (Path_of "/tmp/sxs-1" </> Path_of "cache") = "/tmp/sxs-1/cache".
Proof. reflexivity. Qed.
Example normalise_dotdot : normalise ["x"; ".."; "b"; "a"] = ["x"; "a"].
Proof. reflexivity. Qed.
Example upper_cache : Str.upper "cache" = "CACHE".
Proof. reflexivity. Qed.

Lemma normalise_cons c l :
  String.eqb c ".." = false -> normalise (c :: l) = c :: normalise l.
Proof. intros H. unfold normalise. simpl. now rewrite H. Qed.

Lemma joinpath_empty p : p </> Path_empty = p.
Proof. destruct p; reflexivity. Qed.

Lemma key_child w p c :
  String.eqb c ".." = false -> key w (p </> mkPath false [c]) = c :: key w p.
Proof. intros H. unfold key, joinpath. simpl. now apply normalise_cons. Qed.

Lemma Path_of_cache : Path_of "cache" = mkPath false ["cache"].
Proof. reflexivity. Qed.

Lemma Path_of_config_json : Path_of "config.json" = mkPath false ["config.json"].
Proof. reflexivity. Qed.

Lemma mkPath_eta p : mkPath (anchored p) (rparts p) = p.
Proof. now destruct p. Qed.

(** ** What a computation keeps *)

Section Keeps.
Context (R : World -> World -> Prop) `{!PreOrder R}.

Lemma keeps_ret {A} (a : A) : keeps R (ret a).
Proof. intros w r w' [= _ <-]. reflexivity. Qed.

Lemma keeps_raise {A} e : keeps R (@raise A e).
Proof. intros w r w' [= _ <-]. reflexivity. Qed.

Lemma keeps_get {A} (f : World -> A) : keeps R (get f).
Proof. intros w r w' [= _ <-]. reflexivity. Qed.

Lemma keeps_modify f : (forall w, R w (f w)) -> keeps R (modify f).
Proof. intros H w r w' [= _ <-]. apply H. Qed.

Lemma keeps_bind {A B} (m : M A) (k : A -> M B) :
  keeps R m -> (forall a, keeps R (k a)) -> keeps R (bind m k).
Proof.
  intros Hm Hk w r w'. unfold bind.
  destruct (m w) as [[a|e] w1] eqn:E; intros H.
  - transitivity w1; [eapply Hm | eapply Hk]; eauto.
  - injection H as _ <-. eapply Hm; eauto.
Qed.

Lemma keeps_try {A B} (m : M A) (h : M B) (k : A -> M B) :
  keeps R m -> keeps R h -> (forall a, keeps R (k a)) -> keeps R (try_except_OSError m h k).
Proof.
  intros Hm Hh Hk w r w'. unfold try_except_OSError.
  destruct (m w) as [[a|e] w1] eqn:E; intros H.
  - transitivity w1; [eapply Hm | eapply Hk]; eauto.
  - destruct e; try (injection H as _ <-; eapply Hm; eauto).
    transitivity w1; [eapply Hm | eapply Hh]; eauto.
Qed.

End Keeps.

(** ** The file system only gains writable directories *)

Lemma fs_wfb_wf f : fs_wfb f = true -> fs_wf f.
Proof.
  unfold fs_wfb. rewrite forallb_forall. intros H c p n Hk.
  specialize (H (c :: p, n)). simpl in H.
  assert (In (c :: p, n) (map_to_list f)) as Hin.
  { apply list_elem_of_In, elem_of_map_to_list, Hk. }
  specialize (H Hin). destruct (f !! p) as [[dw|]|]; try discriminate. eauto.
Qed.

#[global] Instance evolves_preorder : PreOrder evolves.
Proof.
  split.
  - intros w. split; [reflexivity | intros k; now left | tauto].
  - intros w1 w2 w3 [c1 g1 f1] [c2 g2 f2]. split.
    + congruence.
    + intros k. destruct (g1 k) as [E1|[E1 E1']], (g2 k) as [E2|[E2 E2']].
      * left; congruence.
      * right; split; congruence.
      * right; split; congruence.
      * congruence.
    + tauto.
Qed.

Lemma evolves_same_fs w w' :
  cwd w' = cwd w -> fs w' = fs w -> evolves w w'.
Proof. intros Hc Hf. split; [assumption | intros k; left; now rewrite Hf | now rewrite Hf]. Qed.

Lemma evolves_key w w' p : evolves w w' -> key w' p = key w p.
Proof. intros [Hc _ _]. unfold key. now rewrite Hc. Qed.

Lemma os_mkdir_cases p w r w' :
  os_mkdir p w = (r, w') ->
  (exists e, r = Raise (OSError e) /\ w' = w /\
             (e = ENOENT -> forall c parent, key w p = c :: parent -> fs w !! parent = None)) \/
  (exists c parent n, r = Ok tt /\ key w p = c :: parent /\
             fs w !! parent = Some (Dir true) /\ fs w !! (c :: parent) = None /\
             inodes_free w = S n /\
             w' = set_fs (<[c :: parent := Dir true]> (fs w)) n w).
Proof.
  unfold os_mkdir. destruct (key w p) as [|c parent] eqn:K.
  { intros [= <- <-]. left. exists EEXIST. split; [|split]; congruence. }
  destruct (fs w !! parent) as [[pw|fw fc]|] eqn:P.
  - destruct (fs w !! (c :: parent)) eqn:T.
    { intros [= <- <-]. left. exists EEXIST. repeat split; congruence. }
    destruct pw; simpl.
    + destruct (inodes_free w) eqn:I.
      * intros [= <- <-]. left. exists ENOSPC. repeat split; congruence.
      * intros [= <- <-]. right. exists c, parent, n. repeat split; assumption.
    + intros [= <- <-]. left. exists EACCES. repeat split; congruence.
  - intros [= <- <-]. left. exists ENOTDIR. repeat split; congruence.
  - intros [= <- <-]. left. exists ENOENT. repeat split; congruence.
Qed.

Lemma fs_wf_insert_dir f c parent dw :
  fs_wf f -> f !! parent = Some (Dir dw) -> f !! (c :: parent) = None ->
  fs_wf (<[c :: parent := Dir true]> f).
Proof.
  intros Hwf Hp Hn c' p' n. rewrite lookup_insert.
  destruct (decide (c :: parent = c' :: p')) as [E|E].
  - injection E as <- <-. intros _. exists dw.
    rewrite lookup_insert_ne; [assumption|].
    intros E'. apply (f_equal length) in E'. simpl in E'. lia.
  - intros Hk. destruct (Hwf _ _ _ Hk) as [dw' Hd]. exists dw'.
    rewrite lookup_insert_ne; [assumption|]. congruence.
Qed.

Lemma os_mkdir_evolves p : keeps evolves (os_mkdir p).
Proof.
  intros w r w' H. apply os_mkdir_cases in H as [(e & _ & -> & _)|(c & parent & n & _ & K & P & T & I & ->)].
  - reflexivity.
  - split; simpl.
    + reflexivity.
    + intros k. rewrite lookup_insert. destruct (decide (c :: parent = k)) as [<-|]; auto.
    + intros Hwf. eapply fs_wf_insert_dir; eauto.
Qed.

Lemma is_dir_at_true p w :
  is_dir_at p w = true <-> exists dw, fs w !! key w p = Some (Dir dw).
Proof.
  unfold is_dir_at, stat. destruct (fs w !! key w p) as [[dw|fw fc]|]; split;
    try discriminate; eauto; intros [dw' H]; try discriminate; reflexivity.
Qed.

Lemma Path_mkdir_here_evolves p exist_ok : keeps evolves (Path_mkdir_here p exist_ok).
Proof.
  intros w r w'. unfold Path_mkdir_here.
  destruct (os_mkdir p w) as [[[]|e] w1] eqn:E; pose proof (os_mkdir_evolves _ _ _ _ E).
  - now intros [= _ <-].
  - destruct e as [| [] | | | |]; try (now intros [= _ <-]);
      destruct (exist_ok && is_dir_at p w1); now intros [= _ <-].
Qed.

Lemma Path_mkdir_parts_evolves anch parts parents exist_ok :
  keeps evolves (Path_mkdir_parts anch parts parents exist_ok).
Proof.
  revert parents exist_ok. induction parts as [|c parent IH]; intros parents exist_ok w r w'; simpl;
    destruct (os_mkdir _ w) as [[[]|e] w1] eqn:E; pose proof (os_mkdir_evolves _ _ _ _ E) as H1.
  - now intros [= _ <-].
  - destruct e as [| [] | | | |]; try (now intros [= _ <-]);
      destruct (exist_ok && is_dir_at _ w1); now intros [= _ <-].
  - now intros [= _ <-].
  - destruct e as [| [] | | | |]; try (now intros [= _ <-]);
      try (destruct (exist_ok && is_dir_at _ w1); now intros [= _ <-]).
    destruct parents; simpl; [|now intros [= _ <-]].
    destruct (Path_mkdir_parts anch parent true true w1) as [[[]|e'] w2] eqn:E2;
      pose proof (IH _ _ _ _ _ E2) as H2.
    + intros H3. apply Path_mkdir_here_evolves in H3. now rewrite H1, H2.
    + intros [= _ <-]. now rewrite H1.
Qed.

Lemma Path_mkdir_evolves p parents exist_ok : keeps evolves (Path_mkdir p parents exist_ok).
Proof. apply Path_mkdir_parts_evolves. Qed.

(** ** What a computation raises *)

Lemma throws_ret {A} P (a : A) : throws P (ret a).
Proof. intros w e w' [=]. Qed.

Lemma throws_get {A} P (f : World -> A) : throws P (get f).
Proof. intros w e w' [=]. Qed.

Lemma throws_modify P f : throws P (modify f).
Proof. intros w e w' [=]. Qed.

Lemma throws_raise {A} (P : Exception -> Prop) e : P e -> throws P (@raise A e).
Proof. intros H w e' w' [= <- _]. exact H. Qed.

Lemma throws_bind {A B} P (m : M A) (k : A -> M B) :
  throws P m -> (forall a, throws P (k a)) -> throws P (bind m k).
Proof.
  intros Hm Hk w e w'. unfold bind. destruct (m w) as [[a|e1] w1] eqn:E; intros H.
  - eapply Hk; eauto.
  - injection H as <- <-. eapply Hm; eauto.
Qed.

Lemma throws_weaken {A} (P Q : Exception -> Prop) (m : M A) :
  (forall e, P e -> Q e) -> throws P m -> throws Q m.
Proof. intros H Hm w e w' E. eauto. Qed.

(** An [OSError] raised by the guarded statement is dropped. *)
Lemma throws_try {A B} P (m : M A) (h : M B) (k : A -> M B) :
  throws is_OSError m -> throws P h -> (forall a, throws P (k a)) ->
  throws P (try_except_OSError m h k).
Proof.
  intros Hm Hh Hk w e w'. unfold try_except_OSError.
  destruct (m w) as [[a|e1] w1] eqn:E; intros H.
  - eapply Hk; eauto.
  - destruct (Hm _ _ _ E) as [errno ->]. eapply Hh; eauto.
Qed.

Lemma os_mkdir_throws p : throws is_OSError (os_mkdir p).
Proof.
  intros w e w' H. apply os_mkdir_cases in H as [(errno & [= ->] & _)|(c & parent & n & [=] & _)].
  now exists errno.
Qed.

Lemma Path_mkdir_here_throws p exist_ok : throws is_OSError (Path_mkdir_here p exist_ok).
Proof.
  intros w e w'. unfold Path_mkdir_here.
  destruct (os_mkdir p w) as [[[]|e1] w1] eqn:E; [intros [=]|].
  destruct (os_mkdir_throws _ _ _ _ E) as [errno ->].
  destruct errno; try (intros [= <- _]; eexists; reflexivity);
    destruct (exist_ok && is_dir_at p w1); intros [= <- _]; eexists; reflexivity.
Qed.

Lemma Path_mkdir_parts_throws anch parts parents exist_ok :
  throws is_OSError (Path_mkdir_parts anch parts parents exist_ok).
Proof.
  revert parents exist_ok. induction parts as [|c parent IH]; intros parents exist_ok w e w'; simpl;
    destruct (os_mkdir _ w) as [[[]|e1] w1] eqn:E; try (intros [=]; fail);
    destruct (os_mkdir_throws _ _ _ _ E) as [errno ->].
  - destruct errno; try (intros [= <- _]; eexists; reflexivity);
      destruct (exist_ok && is_dir_at _ w1); intros [= <- _]; eexists; reflexivity.
  - destruct errno;
      try (destruct (exist_ok && is_dir_at _ w1); intros [= <- _]; eexists; reflexivity).
    destruct parents; simpl; [|intros [= <- _]; eexists; reflexivity].
    destruct (Path_mkdir_parts anch parent true true w1) as [[[]|e'] w2] eqn:E2.
    + apply Path_mkdir_here_throws.
    + intros [= <- _]. eapply IH; eauto.
Qed.

Lemma Path_mkdir_throws p parents exist_ok : throws is_OSError (Path_mkdir p parents exist_ok).
Proof. apply Path_mkdir_parts_throws. Qed.

(** Lines 126-132 and 141-147 never raise: a failure to create the
    directory only makes the answer [False]. *)
Lemma make_writable_total sxs_dir parents w :
  exists b w', make_writable sxs_dir parents w = (Ok b, w').
Proof.
  unfold make_writable, try_except_OSError.
  destruct (Path_mkdir sxs_dir parents true w) as [[[]|e] w1] eqn:E.
  - unfold bind, os_access_W_OK, Path_is_dir, get, ret.
    destruct (writable_at sxs_dir w1); eauto.
  - destruct (Path_mkdir_throws _ _ _ _ _ _ E) as [errno ->]. unfold ret. eauto.
Qed.

Lemma make_writable_true sxs_dir parents w w' :
  make_writable sxs_dir parents w = (Ok true, w') ->
  is_dir_at sxs_dir w' = true /\ writable_at sxs_dir w' = true.
Proof.
  unfold make_writable, try_except_OSError.
  destruct (Path_mkdir sxs_dir parents true w) as [[[]|e] w1] eqn:E.
  - unfold bind, os_access_W_OK, Path_is_dir, get, ret.
    destruct (writable_at sxs_dir w1) eqn:A.
    + intros [= H <-]. auto.
    + intros [=].
  - destruct e; intros [=].
Qed.

Lemma make_writable_evolves sxs_dir parents : keeps evolves (make_writable sxs_dir parents).
Proof.
  apply keeps_try; [apply _ | apply Path_mkdir_evolves | apply keeps_ret; apply _ |].
  intros _. apply keeps_bind; [apply _ | apply keeps_get; apply _ |].
  intros []; [apply keeps_get | apply keeps_ret]; apply _.
Qed.

(** ** What the file operations leave untouched *)

#[global] Instance quiet_preorder : PreOrder quiet.
Proof.
  split.
  - intros w. now split.
  - intros w1 w2 w3 [] []. split; congruence.
Qed.

#[global] Instance same_preorder {A} (f : World -> A) : PreOrder (same f).
Proof. split; unfold same; [intros w | intros w1 w2 w3]; congruence. Qed.

Create HintDb keeps.

Ltac keeps_tac :=
  repeat first
    [ assumption
    | apply keeps_ret; apply _
    | apply keeps_raise; apply _
    | apply keeps_get; apply _
    | apply keeps_bind; [apply _ | | intros ?]
    | apply keeps_try; [apply _ | | | intros ?]
    | match goal with
      | |- keeps _ (if ?b then _ else _) => destruct b
      | |- keeps _ (match ?x with _ => _ end) => destruct x
      end
    | progress auto with keeps ].

Lemma os_mkdir_quiet p : keeps quiet (os_mkdir p).
Proof.
  intros w r w' H. apply os_mkdir_cases in H as [(e & _ & -> & _)|(c & parent & n & _ & _ & _ & _ & _ & ->)];
    [reflexivity | now split].
Qed.

Lemma Path_mkdir_here_quiet p exist_ok : keeps quiet (Path_mkdir_here p exist_ok).
Proof.
  intros w r w'. unfold Path_mkdir_here.
  destruct (os_mkdir p w) as [[[]|e] w1] eqn:E; pose proof (os_mkdir_quiet _ _ _ _ E).
  - now intros [= _ <-].
  - destruct e as [| [] | | | |]; try (now intros [= _ <-]);
      destruct (exist_ok && is_dir_at p w1); now intros [= _ <-].
Qed.

Lemma Path_mkdir_parts_quiet anch parts parents exist_ok :
  keeps quiet (Path_mkdir_parts anch parts parents exist_ok).
Proof.
  revert parents exist_ok. induction parts as [|c parent IH]; intros parents exist_ok w r w'; simpl;
    destruct (os_mkdir _ w) as [[[]|e] w1] eqn:E; pose proof (os_mkdir_quiet _ _ _ _ E) as H1.
  - now intros [= _ <-].
  - destruct e as [| [] | | | |]; try (now intros [= _ <-]);
      destruct (exist_ok && is_dir_at _ w1); now intros [= _ <-].
  - now intros [= _ <-].
  - destruct e as [| [] | | | |]; try (now intros [= _ <-]);
      try (destruct (exist_ok && is_dir_at _ w1); now intros [= _ <-]).
    destruct parents; simpl; [|now intros [= _ <-]].
    destruct (Path_mkdir_parts anch parent true true w1) as [[[]|e'] w2] eqn:E2;
      pose proof (IH _ _ _ _ _ E2) as H2.
    + intros H3. apply Path_mkdir_here_quiet in H3. now rewrite H1, H2.
    + intros [= _ <-]. now rewrite H1.
Qed.

Lemma Path_mkdir_quiet p parents exist_ok : keeps quiet (Path_mkdir p parents exist_ok).
Proof. apply Path_mkdir_parts_quiet. Qed.

Lemma Path_expanduser_pure p w r w' : Path_expanduser p w = (r, w') -> w' = w.
Proof.
  unfold Path_expanduser. destruct (anchored p), (rev (rparts p)) as [|first rest];
    try (now intros [= _ <-]).
  destruct (Str.startswith first "~"); [|now intros [= _ <-]].
  destruct (Str.startswith _ "~"); now intros [= _ <-].
Qed.

Lemma Path_expanduser_keeps R `{!PreOrder R} p : keeps R (Path_expanduser p).
Proof. intros w r w' H. apply Path_expanduser_pure in H as ->. reflexivity. Qed.

Lemma Path_expanduser_throws p :
  throws (eq (RuntimeError "Could not determine home directory.")) (Path_expanduser p).
Proof.
  intros w e w'. unfold Path_expanduser. destruct (anchored p), (rev (rparts p)) as [|first rest];
    try (intros [=]; fail).
  destruct (Str.startswith first "~"); [|intros [=]].
  destruct (Str.startswith _ "~"); now intros [=].
Qed.

#[global] Hint Resolve os_mkdir_evolves Path_mkdir_evolves make_writable_evolves
  os_mkdir_quiet Path_mkdir_quiet : keeps.
#[global] Hint Extern 1 (keeps _ (Path_expanduser _)) =>
  (apply Path_expanduser_keeps; apply _) : keeps.
#[global] Hint Extern 1 (keeps _ Path_home) =>
  (apply Path_expanduser_keeps; apply _) : keeps.
#[global] Hint Extern 1 (keeps _ (Path_resolve _)) => (apply keeps_get; apply _) : keeps.
#[global] Hint Extern 1 (keeps _ (os_getenv _)) => (apply keeps_get; apply _) : keeps.
#[global] Hint Extern 1 (keeps _ (os_access_W_OK _)) => (apply keeps_get; apply _) : keeps.
#[global] Hint Extern 1 (keeps _ (Path_is_dir _)) => (apply keeps_get; apply _) : keeps.
#[global] Hint Extern 1 (keeps _ (Path_exists _)) => (apply keeps_get; apply _) : keeps.

Lemma make_writable_quiet sxs_dir parents : keeps quiet (make_writable sxs_dir parents).
Proof. unfold make_writable. keeps_tac. Qed.

Lemma candidate_pure directory_type suffix w r w' :
  candidate directory_type suffix w = (r, w') -> w' = w.
Proof.
  assert (keeps (fun a b => b = a) (candidate directory_type suffix)) as H.
  { assert (PreOrder (fun a b : World => b = a)) by (split; congruence).
    unfold candidate. keeps_tac. }
  apply H.
Qed.

Lemma candidate_keeps R `{!PreOrder R} directory_type suffix :
  keeps R (candidate directory_type suffix).
Proof. intros w r w' H. apply candidate_pure in H as ->. reflexivity. Qed.

#[global] Hint Extern 1 (keeps _ (candidate _ _)) => (apply candidate_keeps; apply _) : keeps.
#[global] Hint Resolve make_writable_quiet : keeps.

Lemma persistent_search_evolves directory_type suffix :
  keeps evolves (persistent_search directory_type suffix).
Proof. unfold persistent_search. keeps_tac. Qed.

Lemma persistent_search_quiet directory_type suffix :
  keeps quiet (persistent_search directory_type suffix).
Proof. unfold persistent_search. keeps_tac. Qed.

(** ** tempfile.mkdtemp *)

Lemma key_set_rng_pos n w p : key (set_rng_pos n w) p = key w p.
Proof. reflexivity. Qed.
Lemma key_set_tempdir t w p : key (set_tempdir t w) p = key w p.
Proof. reflexivity. Qed.
Lemma key_set_fs f n w p : key (set_fs f n w) p = key w p.
Proof. reflexivity. Qed.
Lemma key_set_memo m w p : key (set_memo m w) p = key w p.
Proof. reflexivity. Qed.
Lemma key_set_environ e w p : key (set_environ e w) p = key w p.
Proof. reflexivity. Qed.
Lemma key_set_warnings l w p : key (set_warnings l w) p = key w p.
Proof. reflexivity. Qed.
Lemma key_set_atexit l w p : key (set_atexit l w) p = key w p.
Proof. reflexivity. Qed.

Ltac wsimpl :=
  repeat rewrite ?key_set_rng_pos, ?key_set_tempdir, ?key_set_fs, ?key_set_memo,
    ?key_set_environ, ?key_set_warnings, ?key_set_atexit in *;
  cbn [fs inodes_free cwd environ memo warnings atexit tempdir rng rng_pos platform
       pw_self pw_name set_rng_pos set_fs set_tempdir set_memo set_environ
       set_warnings set_atexit] in *.

Lemma mkdtemp_loop_ok n dir prefix w t w' :
  mkdtemp_loop n dir prefix w = (Ok t, w') -> created t w w'.
Proof.
  revert w. induction n as [|n IH]; intros w; simpl; [intros [=]|].
  destruct (os_mkdir _ _) as [[[]|e] w1] eqn:E.
  - intros [= <- <-].
    apply os_mkdir_cases in E as [(e & [=] & _)|(c & parent & m & _ & K & P & T & I & ->)].
    wsimpl. split; wsimpl; rewrite ?K; eauto. now split.
  - apply os_mkdir_cases in E as [(errno & [= ->] & -> & _)|(c & parent & m & [=] & _)].
    destruct errno; try (intros [=]; fail).
    intros H. apply IH in H as [(c & parent & K & P) F1 F2 F3 F4 [Q1 Q2 Q3 Q4]].
    wsimpl. split; try assumption; [exists c, parent; auto | now split].
Qed.

Lemma tempfile_gettempdir_cases w r w' :
  tempfile_gettempdir w = (r, w') ->
  (r = Raise (OSError ENOENT) /\ w' = w) \/ (exists d t, r = Ok d /\ w' = set_tempdir t w).
Proof.
  unfold tempfile_gettempdir. destruct (tempdir w) as [d|] eqn:T.
  - intros [= <- <-]. right. exists d, (Some d). split; [reflexivity|].
    destruct w; simpl in *; now subst.
  - destruct (List.find _ _) as [d|]; intros [= <- <-]; [right; eauto | left; auto].
Qed.

Lemma tempfile_mkdtemp_ok prefix w t w' :
  tempfile_mkdtemp prefix w = (Ok t, w') -> created t w w'.
Proof.
  unfold tempfile_mkdtemp, bind.
  destruct (tempfile_gettempdir w) as [[d|e] w1] eqn:G; [|intros [=]].
  apply tempfile_gettempdir_cases in G as [[[=] _]|(d' & t' & [= <-] & ->)].
  intros H. apply mkdtemp_loop_ok in H as [(c & parent & K & P) F1 F2 F3 F4 [Q1 Q2 Q3 Q4]].
  split; try assumption; [exists c, parent; auto | now split].
Qed.

Lemma mkdtemp_loop_fails n dir prefix w e w' :
  mkdtemp_loop n dir prefix w = (Raise e, w') ->
  is_OSError e /\ exists pos, w' = set_rng_pos pos w.
Proof.
  revert w. induction n as [|n IH]; intros w; simpl.
  { intros [= <- <-]. split; [eexists; reflexivity|]. exists (rng_pos w). now destruct w. }
  destruct (os_mkdir _ _) as [[[]|e1] w1] eqn:E; [intros [=]|].
  apply os_mkdir_cases in E as [(errno & [= ->] & -> & _)|(c & parent & m & [=] & _)].
  destruct errno; try (intros [= <- <-]; split; eexists; reflexivity).
  intros H. apply IH in H as [H1 [pos ->]]. split; [assumption|]. now exists pos.
Qed.

Lemma tempfile_mkdtemp_fails prefix w e w' :
  tempfile_mkdtemp prefix w = (Raise e, w') ->
  is_OSError e /\ evolves w w' /\ quiet w w' /\ fs w' = fs w.
Proof.
  unfold tempfile_mkdtemp, bind.
  destruct (tempfile_gettempdir w) as [[d|e1] w1] eqn:G;
    apply tempfile_gettempdir_cases in G as [[[=] ->]|(d' & t' & [=] & ->)]; subst.
  - intros H. apply mkdtemp_loop_fails in H as [H1 [pos ->]].
    repeat split; try assumption; simpl; auto. intros k; now left.
  - intros [= <- <-]. repeat split; auto; try reflexivity; try (intros k; now left).
    eexists; reflexivity.
Qed.

Lemma created_evolves t w w' : created t w w' -> evolves w w'.
Proof.
  intros [(c & parent & K & P) F1 F2 F3 F4 _]. split; [assumption| |].
  - intros k. rewrite F2, lookup_insert. destruct (decide (key w (Path_of t) = k)) as [<-|]; auto.
  - intros Hwf. rewrite F2, K. rewrite K in F1. eapply fs_wf_insert_dir; eauto.
Qed.

Lemma tempfile_mkdtemp_evolves prefix : keeps evolves (tempfile_mkdtemp prefix).
Proof.
  intros w [t|e] w' H.
  - eapply created_evolves, tempfile_mkdtemp_ok, H.
  - now apply tempfile_mkdtemp_fails in H.
Qed.

Lemma tempfile_mkdtemp_quiet prefix : keeps quiet (tempfile_mkdtemp prefix).
Proof.
  intros w [t|e] w' H.
  - now apply tempfile_mkdtemp_ok in H as [].
  - now apply tempfile_mkdtemp_fails in H.
Qed.

Lemma tempfile_mkdtemp_throws prefix : throws is_OSError (tempfile_mkdtemp prefix).
Proof. intros w e w' H. now apply tempfile_mkdtemp_fails in H. Qed.

#[global] Hint Resolve tempfile_mkdtemp_evolves tempfile_mkdtemp_quiet
  persistent_search_evolves persistent_search_quiet : keeps.

(** ** The temporary directory (lines 151-164) *)

Lemma temporary_directory_eq directory_type suffix persistent unwritable_dir w :
  (persistent = true -> is_Some unwritable_dir) ->
  temporary_directory directory_type suffix persistent unwritable_dir w =
  match tempfile_mkdtemp "sxs-" w with
  | (Ok tmpdir, w1) =>
      let sxs_dir := Path_of tmpdir </> suffix in
      let w2 := announced directory_type sxs_dir persistent unwritable_dir tmpdir w1 in
      if String.eqb directory_type "cache" then
        match Path_mkdir sxs_dir false true w2 with
        | (Ok _, w3) => (Ok sxs_dir, w3)
        | (Raise e, w3) => (Raise e, w3)
        end
      else (Ok sxs_dir, w2)
  | (Raise e, w1) => (Raise e, w1)
  end.
Proof.
  intros Hu. unfold temporary_directory, bind at 1.
  destruct (tempfile_mkdtemp "sxs-" w) as [[tmpdir|e] w1]; [|reflexivity].
  unfold bind, os_putenv, atexit_register_rmtree, modify, announced. cbn zeta.
  destruct persistent.
  - destruct (Hu eq_refl) as [u ->]. unfold warnings_warn, modify.
    destruct (String.eqb directory_type "cache"); [|reflexivity].
    destruct (Path_mkdir _ _ _ _) as [[[]|e] w3]; reflexivity.
  - unfold ret. destruct (String.eqb directory_type "cache"); [|reflexivity].
    destruct (Path_mkdir _ _ _ _) as [[[]|e] w3]; reflexivity.
Qed.

Lemma announced_evolves directory_type sxs_dir persistent u t w :
  evolves w (announced directory_type sxs_dir persistent u t w).
Proof. unfold announced. destruct persistent, u; now apply evolves_same_fs. Qed.

Lemma announced_memo directory_type sxs_dir persistent u t w :
  memo (announced directory_type sxs_dir persistent u t w) = memo w.
Proof. unfold announced. now destruct persistent, u. Qed.

Lemma temporary_directory_evolves directory_type suffix persistent u :
  (persistent = true -> is_Some u) ->
  keeps evolves (temporary_directory directory_type suffix persistent u).
Proof.
  intros Hu w r w'. rewrite temporary_directory_eq by assumption.
  destruct (tempfile_mkdtemp "sxs-" w) as [[t|e] w1] eqn:E;
    pose proof (tempfile_mkdtemp_evolves _ _ _ _ E) as H1; [|now intros [= _ <-]].
  cbn zeta. pose proof (announced_evolves directory_type (Path_of t </> suffix) persistent u t w1) as H2.
  destruct (String.eqb directory_type "cache"); [|intros [= _ <-]; now rewrite H1].
  destruct (Path_mkdir _ _ _ _) as [[[]|e] w3] eqn:E3;
    pose proof (Path_mkdir_evolves _ _ _ _ _ _ E3) as H3;
    intros [= _ <-]; now rewrite H1, H2.
Qed.

Lemma temporary_directory_memo directory_type suffix persistent u :
  (persistent = true -> is_Some u) ->
  keeps (same memo) (temporary_directory directory_type suffix persistent u).
Proof.
  intros Hu w r w'. rewrite temporary_directory_eq by assumption. unfold same.
  destruct (tempfile_mkdtemp "sxs-" w) as [[t|e] w1] eqn:E;
    pose proof (q_memo _ _ (tempfile_mkdtemp_quiet _ _ _ _ E)) as H1; [|now intros [= _ <-]].
  cbn zeta. pose proof (announced_memo directory_type (Path_of t </> suffix) persistent u t w1) as H2.
  destruct (String.eqb directory_type "cache"); [|intros [= _ <-]; congruence].
  destruct (Path_mkdir _ _ _ _) as [[[]|e] w3] eqn:E3;
    pose proof (q_memo _ _ (Path_mkdir_quiet _ _ _ _ _ _ E3)) as H3;
    intros [= _ <-]; congruence.
Qed.

Lemma temporary_directory_throws directory_type suffix persistent u :
  (persistent = true -> is_Some u) ->
  throws is_OSError (temporary_directory directory_type suffix persistent u).
Proof.
  intros Hu w e w'. rewrite temporary_directory_eq by assumption.
  destruct (tempfile_mkdtemp "sxs-" w) as [[t|e1] w1] eqn:E.
  - cbn zeta. destruct (String.eqb directory_type "cache"); [|intros [=]].
    destruct (Path_mkdir _ _ _ _) as [[[]|e3] w3] eqn:E3; intros [= <- _].
    eapply Path_mkdir_throws, E3.
  - intros [= <- _]. eapply tempfile_mkdtemp_throws, E.
Qed.

(** ** The body of sxs_directory *)

Lemma valid_test directory_type :
  bool_decide (directory_type ∈ ["cache"; "config"]) = true <-> valid directory_type.
Proof.
  rewrite bool_decide_eq_true. unfold valid. rewrite !elem_of_cons, elem_of_nil. tauto.
Qed.

Lemma sxs_directory_body_eq self directory_type persistent w :
  valid directory_type ->
  sxs_directory_body self directory_type persistent w =
  match first_tier directory_type persistent w with
  | (Ok s, w1) =>
      match found_of s with
      | Some sxs_dir => (Ok sxs_dir, w1)
      | None =>
          if String.eqb directory_type "cache" then
            match nested_cache self persistent w1 with
            | (Ok (Some sxs_dir), w2) => (Ok sxs_dir, w2)
            | (Ok None, w2) =>
                temporary_directory directory_type (suffix_of directory_type)
                  persistent (unwritable_of s) w2
            | (Raise e, w2) => (Raise e, w2)
            end
          else temporary_directory directory_type (suffix_of directory_type)
                 persistent (unwritable_of s) w1
      end
  | (Raise e, w1) => (Raise e, w1)
  end.
Proof.
  intros Hv. apply valid_test in Hv. unfold sxs_directory_body. rewrite Hv. cbn [negb].
  fold (suffix_of directory_type). fold (first_tier directory_type persistent).
  unfold bind at 1. destruct (first_tier directory_type persistent w) as [[s|e] w1]; [|reflexivity].
  destruct s as [[d|u]|]; cbn [found_of unwritable_of]; try reflexivity;
    destruct (String.eqb directory_type "cache"); unfold bind, ret;
    try destruct (nested_cache self persistent w1) as [[[d'|]|e] w2]; reflexivity.
Qed.

Lemma sxs_directory_body_invalid self directory_type persistent w :
  ~ valid directory_type ->
  sxs_directory_body self directory_type persistent w =
  (Raise (ValueError (invalid_message directory_type)), w).
Proof.
  intros Hv. unfold sxs_directory_body.
  destruct (bool_decide _) eqn:E; [apply valid_test in E; contradiction | reflexivity].
Qed.

Lemma first_tier_unwritable directory_type persistent w s w1 :
  first_tier directory_type persistent w = (Ok s, w1) ->
  found_of s = None -> persistent = true -> is_Some (unwritable_of s).
Proof.
  intros H Hf ->. unfold first_tier, bind, ret in H.
  destruct (persistent_search _ _ w) as [[[d|u]|e] w2]; try discriminate;
    injection H as <- <-; [discriminate | now eexists].
Qed.

(** ** The recursion limit is never met *)

Lemma nested_cache_ext self self' persistent w :
  (forall w, self (CallKw "config" persistent) w = self' (CallKw "config" persistent) w) ->
  nested_cache self persistent w = nested_cache self' persistent w.
Proof. intros H. unfold nested_cache, bind. now rewrite H. Qed.

Lemma sxs_directory_body_ext self self' directory_type persistent w :
  (directory_type = "cache" ->
   forall w, self (CallKw "config" persistent) w = self' (CallKw "config" persistent) w) ->
  sxs_directory_body self directory_type persistent w =
  sxs_directory_body self' directory_type persistent w.
Proof.
  intros H. destruct (decide (valid directory_type)) as [Hv|Hv].
  - rewrite !sxs_directory_body_eq by assumption.
    destruct (first_tier _ _ w) as [[s|e] w1]; [|reflexivity].
    destruct (found_of s); [reflexivity|].
    destruct (String.eqb directory_type "cache") eqn:E; [|reflexivity].
    apply String.eqb_eq in E. now rewrite (nested_cache_ext self self') by auto.
  - now rewrite !sxs_directory_body_invalid.
Qed.

Lemma lru_cache_ext n f g k w :
  (forall w, f k w = g k w) -> lru_cache n f k w = lru_cache n g k w.
Proof. intros H. unfold lru_cache. now rewrite H. Qed.

Lemma sxs_directory_at_config n persistent w :
  sxs_directory_at (S n) (CallKw "config" persistent) w =
  sxs_directory_at 1 (CallKw "config" persistent) w.
Proof.
  simpl. apply lru_cache_ext. intros w1. apply sxs_directory_body_ext. discriminate.
Qed.

(** Two levels are all a call needs. *)
Lemma sxs_directory_at_enough n a w :
  sxs_directory_at (S (S n)) a w = sxs_directory_at 2 a w.
Proof.
  change (lru_cache maxsize
            (fun a => sxs_directory_body (sxs_directory_at (S n))
                        (args_directory_type a) (args_persistent a)) a w =
          lru_cache maxsize
            (fun a => sxs_directory_body (sxs_directory_at 1)
                        (args_directory_type a) (args_persistent a)) a w).
  apply lru_cache_ext. intros w1. apply sxs_directory_body_ext.
  intros _ w2. apply sxs_directory_at_config.
Qed.

(** [sxs_directory] is the cached body that calls [sxs_directory]. *)
Lemma sxs_directory_unfold a w :
  sxs_directory a w =
  lru_cache maxsize
    (fun a => sxs_directory_body sxs_directory
                (args_directory_type a) (args_persistent a)) a w.
Proof.
  unfold sxs_directory at 1.
  change (sxs_directory_at recursion_limit a w) with
    (lru_cache maxsize
       (fun a => sxs_directory_body (sxs_directory_at (Nat.pred recursion_limit))
                   (args_directory_type a) (args_persistent a)) a w).
  apply lru_cache_ext. intros w1. apply sxs_directory_body_ext.
  intros _ w2. unfold sxs_directory.
  change (Nat.pred recursion_limit) with (S (Nat.pred (Nat.pred recursion_limit))).
  change recursion_limit with (S (Nat.pred recursion_limit)).
  now rewrite !sxs_directory_at_config.
Qed.

(** ** The cache *)

Lemma cache_get_cons k k' v m :
  cache_get k ((k', v) :: m) = if decide (k' = k) then Some v else cache_get k m.
Proof.
  unfold cache_get. simpl. unfold bool_decide at 1.
  destruct (decide_rel eq k' k), (decide (k' = k)); try contradiction; reflexivity.
Qed.

Lemma cache_get_del_eq k m : cache_get k (cache_del k m) = None.
Proof.
  induction m as [|[k' v] m IH]; [reflexivity|]. unfold cache_del in *. simpl.
  destruct (decide (k' = k)) as [E|E].
  - rewrite (bool_decide_eq_true_2 _ E). simpl. exact IH.
  - rewrite (bool_decide_eq_false_2 _ E). simpl. rewrite cache_get_cons.
    destruct (decide (k' = k)); [contradiction | exact IH].
Qed.

Lemma cache_get_del_ne k k' m : k <> k' -> cache_get k (cache_del k' m) = cache_get k m.
Proof.
  intros Hne. induction m as [|[k0 v] m IH]; [reflexivity|]. unfold cache_del in *. simpl.
  destruct (decide (k0 = k')) as [E|E].
  - rewrite (bool_decide_eq_true_2 _ E). simpl. rewrite cache_get_cons.
    destruct (decide (k0 = k)); [congruence | exact IH].
  - rewrite (bool_decide_eq_false_2 _ E). simpl. rewrite !cache_get_cons.
    destruct (decide (k0 = k)); [reflexivity | exact IH].
Qed.

Lemma cache_get_None k m : cache_get k m = None <-> k ∉ m.*1.
Proof.
  induction m as [|[k' v] m IH]; simpl.
  - split; [intros _; apply not_elem_of_nil | reflexivity].
  - rewrite cache_get_cons, not_elem_of_cons.
    destruct (decide (k' = k)) as [->|E]; split; try discriminate.
    + intros [H _]. contradiction.
    + intros H. split; [congruence | now apply IH].
    + intros [_ H]. now apply IH.
Qed.

Lemma cache_get_Some k v m : cache_get k m = Some v -> k ∈ m.*1.
Proof.
  intros H. destruct (decide (k ∈ m.*1)) as [|Hn]; [assumption|].
  apply cache_get_None in Hn. congruence.
Qed.

Lemma cache_del_keys k m : (cache_del k m).*1 = List.filter (fun k' => negb (bool_decide (k' = k))) m.*1.
Proof.
  induction m as [|[k' v] m IH]; [reflexivity|]. unfold cache_del in *. simpl.
  destruct (negb (bool_decide (k' = k))); simpl; [f_equal|]; exact IH.
Qed.

Lemma elem_of_cache_del k k' m : k' ∈ (cache_del k m).*1 -> k' ∈ m.*1 /\ k' <> k.
Proof.
  rewrite cache_del_keys, list_elem_of_In, filter_In, <- list_elem_of_In.
  intros [H1 H2]. split; [assumption|]. apply negb_true_iff, bool_decide_eq_false in H2. exact H2.
Qed.

Lemma NoDup_cache_del k m : NoDup m.*1 -> NoDup (cache_del k m).*1.
Proof.
  rewrite cache_del_keys. intros H. apply NoDup_ListNoDup, List.NoDup_filter, NoDup_ListNoDup, H.
Qed.

Lemma valid_all_calls k : valid (args_directory_type k) -> k ∈ all_calls.
Proof.
  unfold all_calls. destruct k as [d|d p|d p]; simpl; intros [->| ->]; try destruct p;
    repeat first [apply list_elem_of_here | apply list_elem_of_further].
Qed.

(** So the cache never fills up. *)
Lemma memo_ok_length m : memo_ok m -> (length m < maxsize)%nat.
Proof.
  intros [Hnd Hv]. assert (m.*1 ⊆+ all_calls) as Hs.
  { apply NoDup_submseteq; [assumption|]. intros k Hk.
    rewrite Forall_forall in Hv. apply valid_all_calls, Hv, Hk. }
  apply submseteq_length in Hs. rewrite length_fmap in Hs.
  unfold maxsize. simpl in Hs. lia.
Qed.

Lemma memo_rel_same extra w w' : memo w' = memo w -> memo_rel extra w w'.
Proof. intros H. split; rewrite H; auto. Qed.

Lemma memo_rel_trans e w1 w2 w3 :
  memo_rel e w1 w2 -> memo_rel e w2 w3 -> memo_rel e w1 w3.
Proof.
  intros [o1 k1 n1] [o2 k2 n2]. split; [tauto | auto |].
  intros k Hk. destruct (n2 k Hk) as [H|H]; auto.
Qed.

Lemma memo_rel_weaken e e' w w' : e ⊆ e' -> memo_rel e w w' -> memo_rel e' w w'.
Proof.
  intros He [o k n]. split; auto. intros k0 Hk. destruct (n k0 Hk); auto.
Qed.

Lemma first_tier_evolves directory_type persistent :
  keeps evolves (first_tier directory_type persistent).
Proof. unfold first_tier. keeps_tac. Qed.

Lemma first_tier_quiet directory_type persistent :
  keeps quiet (first_tier directory_type persistent).
Proof. unfold first_tier. keeps_tac. Qed.

Lemma sxs_directory_body_valid self directory_type persistent w v w' :
  sxs_directory_body self directory_type persistent w = (Ok v, w') -> valid directory_type.
Proof.
  intros H. destruct (decide (valid directory_type)) as [|Hn]; [assumption|].
  rewrite sxs_directory_body_invalid in H by assumption. discriminate.
Qed.

Lemma sxs_directory_body_call self directory_type persistent w r w' :
  (forall w r w', self (CallKw "config" persistent) w = (r, w') ->
                  call_ok (CallKw "config" persistent) r w w') ->
  sxs_directory_body self directory_type persistent w = (r, w') ->
  evolves w w' /\
  memo_rel (if String.eqb directory_type "cache" then [CallKw "config" persistent] else []) w w'.
Proof.
  intros Hself. destruct (decide (valid directory_type)) as [Hv|Hv].
  2:{ rewrite sxs_directory_body_invalid by assumption. intros [= _ <-].
      split; [reflexivity | now apply memo_rel_same]. }
  rewrite sxs_directory_body_eq by assumption.
  destruct (first_tier _ _ w) as [[s|e] w1] eqn:E1;
    pose proof (first_tier_evolves _ _ _ _ _ E1) as V1;
    pose proof (q_memo _ _ (first_tier_quiet _ _ _ _ _ E1)) as M1.
  2:{ intros [= _ <-]. split; [assumption | now apply memo_rel_same]. }
  destruct (found_of s) eqn:F.
  { intros [= _ <-]. split; [assumption | now apply memo_rel_same]. }
  assert (persistent = true -> is_Some (unwritable_of s)) as Hu
    by (eapply first_tier_unwritable; eauto).
  destruct (String.eqb directory_type "cache") eqn:C.
  - unfold nested_cache, bind.
    destruct (self (CallKw "config" persistent) w1) as [[c|e] w2] eqn:E2;
      destruct (Hself _ _ _ E2) as [V2 M2 _]; simpl in M2.
    2:{ intros [= _ <-]. split; [now rewrite V1|].
        eapply memo_rel_trans; [apply memo_rel_same, M1|].
        eapply memo_rel_weaken; [|exact M2]. set_solver. }
    destruct (make_writable _ false w2) as [[b|e] w3] eqn:E3;
      pose proof (make_writable_evolves _ _ _ _ _ E3) as V3;
      pose proof (q_memo _ _ (make_writable_quiet _ _ _ _ _ E3)) as M3.
    2:{ unfold ret. intros [= _ <-]. split; [now rewrite V1, V2|].
        eapply memo_rel_trans; [apply memo_rel_same, M1|].
        eapply memo_rel_trans; [|apply memo_rel_same, M3].
        eapply memo_rel_weaken; [|exact M2]. set_solver. }
    assert (evolves w w3) as V by (now rewrite V1, V2).
    assert (memo_rel [CallKw "config" persistent] w w3) as M.
    { eapply memo_rel_trans; [apply memo_rel_same, M1|].
      eapply memo_rel_trans; [|apply memo_rel_same, M3].
      eapply memo_rel_weaken; [|exact M2]. set_solver. }
    unfold ret. destruct b.
    + intros [= _ <-]. auto.
    + intros H4. split.
      * rewrite V. eapply temporary_directory_evolves; eauto.
      * eapply memo_rel_trans; [exact M|].
        apply memo_rel_same. eapply temporary_directory_memo; eauto.
  - intros H4. split.
    + rewrite V1. eapply temporary_directory_evolves; eauto.
    + apply memo_rel_same. rewrite <- M1. eapply temporary_directory_memo; eauto.
Qed.

Lemma lru_cache_call f a w r w' :
  (forall w r w', f a w = (r, w') ->
     evolves w w' /\
     memo_rel (if String.eqb (args_directory_type a) "cache"
               then [CallKw "config" (args_persistent a)] else []) w w' /\
     (forall v, r = Ok v -> valid (args_directory_type a))) ->
  lru_cache maxsize f a w = (r, w') -> call_ok a r w w'.
Proof.
  intros Hf. unfold lru_cache. destruct (cache_get a (memo w)) as [v|] eqn:G.
  - intros [= <- <-]. split; wsimpl.
    + now apply evolves_same_fs.
    + split; wsimpl.
      * intros [Hnd Hv]. split; simpl.
        -- constructor; [|now apply NoDup_cache_del].
           intros H. now apply elem_of_cache_del in H.
        -- constructor.
           ++ rewrite Forall_forall in Hv. eapply Hv, cache_get_Some, G.
           ++ rewrite Forall_forall in *. intros k Hk. now apply Hv, (elem_of_cache_del a).
      * intros _ k v'. rewrite cache_get_cons. destruct (decide (a = k)) as [<-|Hne].
        -- congruence.
        -- now rewrite cache_get_del_ne.
      * simpl. intros k [->|Hk]%elem_of_cons.
        -- left. eapply cache_get_Some, G.
        -- left. now apply (elem_of_cache_del a).
    + intros _ v' [= <-]. rewrite cache_get_cons. now destruct (decide (a = a)).
  - destruct (f a w) as [[v|e] w1] eqn:E; destruct (Hf _ _ _ E) as (V & [Mo Mk Mn] & Hval).
    2:{ intros [= <- <-]. split; [assumption| |intros _ v [=]].
        split; auto. intros k Hk. destruct (Mn k Hk); [now left | right; now right]. }
    assert (cache_get a (memo w1) = None) as G1.
    { apply cache_get_None. intros Hk. destruct (Mn a Hk) as [H|H].
      - now apply cache_get_None in G.
      - destruct (String.eqb (args_directory_type a) "cache") eqn:C.
        + apply String.eqb_eq in C. apply list_elem_of_singleton in H.
          rewrite H in C. discriminate.
        + now apply elem_of_nil in H. }
    rewrite G1.
    assert (exists kept,
      (if (maxsize <=? length (memo w1))%nat then removelast (memo w1) else memo w1) = kept /\
      (memo_ok (memo w) -> kept = memo w1) /\
      (forall k, k ∈ kept.*1 -> k ∈ (memo w1).*1)) as (kept & -> & Hkept & Hsub).
    { eexists. split; [reflexivity|]. split.
      - intros Hok. apply Mo, memo_ok_length in Hok.
        destruct (Nat.leb_spec maxsize (length (memo w1))); [lia | reflexivity].
      - intros k Hk. destruct (maxsize <=? length (memo w1))%nat; [|assumption].
        apply list_elem_of_In. apply list_elem_of_In in Hk.
        apply in_map_iff in Hk as ([k0 v0] & <- & Hin). apply in_map_iff.
        exists (k0, v0). split; [reflexivity|].
        clear -Hin. induction (memo w1) as [|x [|y l] IH]; simpl in *; tauto. }
    intros [= <- <-]. split; wsimpl.
    + transitivity w1; [assumption | now apply evolves_same_fs].
    + split; wsimpl.
      * intros Hok. rewrite (Hkept Hok). destruct (Mo Hok) as [Hnd Hv]. split; simpl.
        -- constructor; [now apply cache_get_None | assumption].
        -- constructor; [eapply Hval; reflexivity | assumption].
      * intros Hok k v'. rewrite (Hkept Hok), cache_get_cons. intros Hk.
        destruct (decide (a = k)) as [<-|Hne]; [congruence | now apply Mk].
      * intros k Hk. simpl in Hk. apply elem_of_cons in Hk as [->|Hk]; [right; now left|].
        destruct (Mn k (Hsub k Hk)); [now left | right; now right].
    + intros _ v' [= <-]. rewrite cache_get_cons. now destruct (decide (a = a)).
Qed.

(** Every call keeps the file system well formed and the cache in order. *)
Lemma sxs_directory_at_call n a w r w' :
  sxs_directory_at n a w = (r, w') -> call_ok a r w w'.
Proof.
  revert a w r w'. induction n as [|n IH]; intros a w r w'; simpl.
  - intros [= <- <-]. split; [reflexivity | now apply memo_rel_same | intros _ v [=]].
  - apply lru_cache_call. intros w0 r0 w0' H. split; [|split].
    + eapply sxs_directory_body_call; eauto.
    + eapply sxs_directory_body_call; eauto.
    + intros v ->. eapply sxs_directory_body_valid, H.
Qed.

Lemma sxs_directory_call a w r w' :
  sxs_directory a w = (r, w') -> call_ok a r w w'.
Proof. apply sxs_directory_at_call. Qed.

(** ** The process: calls, and changes made from outside *)

Lemma step_keeps_entries ev w :
  memo_ok (memo w) ->
  memo_ok (memo (step w ev)) /\
  forall k v, cache_get k (memo w) = Some v -> cache_get k (memo (step w ev)) = Some v.
Proof.
  intros Hok. destruct ev as [a|change]; simpl; [|auto].
  destruct (sxs_directory a w) as [r w'] eqn:E.
  destruct (sxs_directory_call _ _ _ _ E) as [_ [Mo Mk _] _]. simpl. auto.
Qed.

Lemma run_keeps_entries evs w :
  memo_ok (memo w) ->
  memo_ok (memo (run evs w)) /\
  forall k v, cache_get k (memo w) = Some v -> cache_get k (memo (run evs w)) = Some v.
Proof.
  revert w. induction evs as [|ev evs IH]; intros w Hok; simpl; [auto|].
  destruct (step_keeps_entries ev w Hok) as [H1 H2].
  destruct (IH _ H1) as [H3 H4]. auto.
Qed.

(** The cache of a process that started with an empty one is in order. *)
Lemma process_memo_ok evs w : memo w = [] -> memo_ok (memo (run evs w)).
Proof.
  intros H. apply run_keeps_entries. rewrite H. split; constructor.
Qed.

Lemma sxs_directory_hit a w v :
  cache_get a (memo w) = Some v ->
  sxs_directory a w = (Ok v, set_memo ((a, v) :: cache_del a (memo w)) w).
Proof. intros H. rewrite sxs_directory_unfold. unfold lru_cache. now rewrite H. Qed.

Lemma sxs_directory_miss a w :
  cache_get a (memo w) = None ->
  sxs_directory a w =
  match sxs_directory_body sxs_directory (args_directory_type a) (args_persistent a) w with
  | (Ok v, w') =>
      match cache_get a (memo w') with
      | Some _ => (Ok v, w')
      | None => (Ok v, set_memo ((a, v) :: (if (maxsize <=? length (memo w'))%nat
                                            then removelast (memo w') else memo w')) w')
      end
  | (Raise e, w') => (Raise e, w')
  end.
Proof. intros H. rewrite sxs_directory_unfold. unfold lru_cache. now rewrite H. Qed.

(** On a miss the call returns what the body returns, in the world the body
    leaves, but for the cache. *)
Lemma sxs_directory_miss_ok a w v w' :
  cache_get a (memo w) = None ->
  sxs_directory a w = (Ok v, w') ->
  exists w1 m, sxs_directory_body sxs_directory (args_directory_type a) (args_persistent a) w
               = (Ok v, w1) /\ w' = set_memo m w1.
Proof.
  intros Hm. rewrite sxs_directory_miss by assumption.
  destruct (sxs_directory_body _ _ _ w) as [[v1|e] w1]; [|intros [=]].
  destruct (cache_get a (memo w1)); intros [= <- <-].
  - exists w1, (memo w1). split; [reflexivity | now destruct w1].
  - eauto.
Qed.

Lemma sxs_directory_miss_body a w v w1 :
  cache_get a (memo w) = None ->
  sxs_directory_body sxs_directory (args_directory_type a) (args_persistent a) w = (Ok v, w1) ->
  exists m, sxs_directory a w = (Ok v, set_memo m w1).
Proof.
  intros Hm Hb. rewrite sxs_directory_miss, Hb by assumption.
  destruct (cache_get a (memo w1)); eexists; [|reflexivity].
  instantiate (1 := memo w1). now destruct w1.
Qed.

Lemma sxs_directory_miss_raise a w e w1 :
  cache_get a (memo w) = None ->
  sxs_directory a w = (Raise e, w1) <->
  sxs_directory_body sxs_directory (args_directory_type a) (args_persistent a) w = (Raise e, w1).
Proof.
  intros Hm. rewrite sxs_directory_miss by assumption.
  destruct (sxs_directory_body _ _ _ w) as [[v1|e1] w2]; [|tauto].
  destruct (cache_get a (memo w2)); split; discriminate.
Qed.

(** * The claims *)

(** C6. For every [directory_type] other than "cache" and "config", and
    whatever the persistent flag and the way the arguments are passed, a
    call of [sxs_directory] raises [ValueError] and leaves the world as it
    found it: no file-system or environment access was made.  (The cache
    holds only calls that returned, which is what [memo_ok] says.) *)
Theorem invalid_directory_type_raises (a : Args) (w : World) :
  memo_ok (memo w) ->
  ~ valid (args_directory_type a) ->
  sxs_directory a w = (Raise (ValueError (invalid_message (args_directory_type a))), w).
Proof.
  intros [_ Hv] Hn.
  assert (cache_get a (memo w) = None) as Hm.
  { apply cache_get_None. intros Hk. rewrite Forall_forall in Hv. apply Hn, Hv, Hk. }
  apply sxs_directory_miss_raise; [assumption|]. now apply sxs_directory_body_invalid.
Qed.

Lemma invalid_directory_type_raises_witness :
  sxs_directory (Call2 "data" false) w_linux =
  (Raise (ValueError "Can only find 'cache' or 'config' directories, not 'data'"), w_linux).
Proof.
  apply (invalid_directory_type_raises (Call2 "data" false) w_linux).
  - apply (bool_decide_unpack _). vm_compute. exact I.
  - apply (bool_decide_unpack _). vm_compute. exact I.
Defined.

(** C2, as amended.  If a call of [sxs_directory] returns a path, every
    later call with the same arguments passed in the same way returns that
    path, whatever calls were made and whatever changed outside in between,
    and it leaves the world as it is but for the order of the cache: nothing
    of the resolution is run again. *)
Theorem later_calls_return_the_same_path (a : Args) (w w1 : World) (p : Path)
    (evs : list Event) :
  memo_ok (memo w) ->
  sxs_directory a w = (Ok p, w1) ->
  exists m, sxs_directory a (run evs w1) = (Ok p, set_memo m (run evs w1)).
Proof.
  intros Hok H. destruct (sxs_directory_call _ _ _ _ H) as [_ [Mo _ _] Hr].
  destruct (run_keeps_entries evs w1 (Mo Hok)) as [_ Hk].
  eexists. apply sxs_directory_hit, Hk, Hr; auto.
Qed.

Lemma later_calls_return_the_same_path_witness :
  let w1 := (sxs_directory (Call1 "config") w_linux).2 in
  let evs := [Outside (fun w => set_environ {[ "SXSCONFIGDIR" := "/elsewhere" ]} (set_fs ∅ 0 w));
              Calls (Call1 "cache")] in
  exists m, sxs_directory (Call1 "config") (run evs w1)
            = (Ok (Path_of "/home/u/.config/sxs"), set_memo m (run evs w1)).
Proof.
  intros w1 evs.
  apply (later_calls_return_the_same_path (Call1 "config") w_linux w1
           (Path_of "/home/u/.config/sxs") evs).
  - apply (bool_decide_unpack _). vm_compute. exact I.
  - vm_compute. reflexivity.
Defined.

(** C2 as stated fails for the pair: [functools.lru_cache] keeps one entry
    per way of passing the arguments, not per pair of values.  With nothing
    changed in between, [sxs_directory("config", False)] and
    [sxs_directory("config", persistent=False)] return two different
    temporary directories, the second call running the resolution again. *)
Lemma same_pair_passed_differently :
  let a := Call2 "config" false in
  let b := CallKw "config" false in
  let r1 := sxs_directory a w_linux in
  let r2 := sxs_directory b r1.2 in
  args_directory_type a = args_directory_type b /\
  args_persistent a = args_persistent b /\
  r1.1 = Ok (Path_of "/tmp/sxs-a") /\
  r2.1 = Ok (Path_of "/tmp/sxs-b") /\
  r1.1 <> r2.1 /\
  fs r2.2 <> fs r1.2.
Proof.
  cbv zeta. repeat split; try (vm_compute; reflexivity).
  - vm_compute. discriminate.
  - intros H. apply (f_equal (fun f => f !! ["sxs-b"; "tmp"])) in H.
    vm_compute in H. discriminate.
Qed.

(** ** Creating a directory: the two cases the claims meet *)

Lemma Path_mkdir_fresh p w r w' :
  fs w !! key w p = None ->
  Path_mkdir p false true w = (r, w') ->
  (r = Ok tt /\ fs w' = <[key w p := Dir true]> (fs w) /\ cwd w' = cwd w) \/
  (exists e, r = Raise (OSError e) /\ w' = w).
Proof.
  intros Hn. unfold Path_mkdir.
  assert (is_dir_at (mkPath (anchored p) (rparts p)) w = false) as Hd.
  { rewrite mkPath_eta. unfold is_dir_at, stat. now rewrite Hn. }
  assert (forall r0 w0, os_mkdir (mkPath (anchored p) (rparts p)) w = (r0, w0) ->
            (r0 = Ok tt /\ fs w0 = <[key w p := Dir true]> (fs w) /\ cwd w0 = cwd w) \/
            (exists e, r0 = Raise (OSError e) /\ w0 = w)) as Hos.
  { intros r0 w0 E. rewrite mkPath_eta in E.
    apply os_mkdir_cases in E as [(e & -> & -> & _)|(c & parent & n & -> & K & _ & _ & _ & ->)].
    - right. eauto.
    - left. rewrite K. auto. }
  destruct (rparts p) as [|c parent] eqn:Hp; simpl;
    destruct (os_mkdir _ w) as [[[]|e] w1] eqn:E;
    destruct (Hos _ _ eq_refl) as [(Hr & Hf & Hc)|(errno & Hr & ->)]; try discriminate.
  - intros [= <- <-]. auto.
  - injection Hr as ->. rewrite ?Hd; simpl; rewrite ?Hd.
    destruct errno; intros [= <- <-]; right; eauto.
  - intros [= <- <-]. auto.
  - injection Hr as ->. rewrite ?Hd; simpl; rewrite ?Hd.
    destruct errno; intros [= <- <-]; right; eauto.
Qed.

Lemma os_mkdir_existing p w :
  fs_wf (fs w) -> is_dir_at p w = true -> os_mkdir p w = (Raise (OSError EEXIST), w).
Proof.
  intros Hwf Hd. apply is_dir_at_true in Hd as [dw Hd]. unfold os_mkdir.
  destruct (key w p) as [|c parent]; [reflexivity|].
  destruct (Hwf _ _ _ Hd) as [pw ->]. now rewrite Hd.
Qed.

Lemma Path_mkdir_existing p parents w :
  fs_wf (fs w) -> is_dir_at p w = true -> Path_mkdir p parents true w = (Ok tt, w).
Proof.
  intros Hwf Hd. unfold Path_mkdir. rewrite <- (mkPath_eta p) in Hd.
  pose proof (os_mkdir_existing _ _ Hwf Hd) as E.
  destruct (rparts p); simpl; rewrite E, Hd; reflexivity.
Qed.

Lemma make_writable_existing p parents w :
  fs_wf (fs w) -> is_dir_at p w = true -> writable_at p w = true ->
  make_writable p parents w = (Ok true, w).
Proof.
  intros Hwf Hd Hw. unfold make_writable, try_except_OSError.
  rewrite Path_mkdir_existing by assumption.
  unfold bind, os_access_W_OK, Path_is_dir, get. now rewrite Hw, Hd.
Qed.

Lemma first_tier_found directory_type persistent w s w1 d :
  first_tier directory_type persistent w = (Ok s, w1) -> found_of s = Some d ->
  is_dir_at d w1 = true /\ writable_at d w1 = true.
Proof.
  unfold first_tier. destruct persistent; [|intros [= <- _]; discriminate].
  unfold persistent_search, bind, ret.
  destruct (candidate _ _ w) as [[c|e] w0]; [|discriminate].
  destruct (make_writable c true w0) as [[[]|e] w2] eqn:E; try discriminate;
    intros [= <- <-]; [|discriminate].
  intros [= <-]. eapply make_writable_true, E.
Qed.

Lemma nested_cache_found self persistent w d w1 :
  nested_cache self persistent w = (Ok (Some d), w1) ->
  is_dir_at d w1 = true /\ writable_at d w1 = true.
Proof.
  unfold nested_cache, bind, ret. destruct (self _ w) as [[c|e] w0]; [|discriminate].
  destruct (make_writable _ false w0) as [[[]|e] w2] eqn:E; try discriminate.
  intros [= <- <-]. eapply make_writable_true, E.
Qed.

Lemma nested_cache_evolves persistent : keeps evolves (nested_cache sxs_directory persistent).
Proof.
  unfold nested_cache. apply keeps_bind; [apply _ | |].
  - intros w r w' H. now apply sxs_directory_call in H as [].
  - intros c. keeps_tac.
Qed.

Lemma stat_announced directory_type sxs_dir persistent u t w p :
  stat p (announced directory_type sxs_dir persistent u t w) = stat p w.
Proof. unfold announced. now destruct persistent, u. Qed.

(** The directory the temporary tier returns is new, and writable. *)
Lemma temporary_directory_result directory_type persistent u w d w' :
  valid directory_type -> fs_wf (fs w) -> (persistent = true -> is_Some u) ->
  temporary_directory directory_type (suffix_of directory_type) persistent u w = (Ok d, w') ->
  stat d w = None /\ stat d w' = Some (Dir true).
Proof.
  intros Hv Hwf Hu. rewrite temporary_directory_eq by assumption.
  destruct (tempfile_mkdtemp "sxs-" w) as [[t|e] w1] eqn:E; [|intros [=]].
  apply tempfile_mkdtemp_ok in E as [(c & parent & K & P) F1 F2 F3 F4 _]. cbn zeta.
  set (w2 := announced _ _ _ _ _ _).
  assert (fs w2 = fs w1 /\ cwd w2 = cwd w1) as [Hf2 Hc2]
    by (unfold w2, announced; now destruct persistent, u).
  unfold suffix_of. destruct Hv as [-> | ->]; simpl String.eqb; cbv iota.
  - rewrite Path_of_cache.
    assert (forall w0, cwd w0 = cwd w ->
              key w0 (Path_of t </> mkPath false ["cache"]) = "cache" :: c :: parent) as Hk.
    { intros w0 Hc. rewrite key_child by reflexivity. f_equal. rewrite <- K.
      unfold key. now rewrite Hc. }
    assert (fs w2 !! key w2 (Path_of t </> mkPath false ["cache"]) = None) as Hn.
    { rewrite Hk, Hf2, F2, K by congruence. rewrite lookup_insert_ne by congruence.
      destruct (fs w !! ("cache" :: c :: parent)) as [n|] eqn:T; [|reflexivity].
      destruct (Hwf _ _ _ T) as [dw T']. rewrite K in F1. congruence. }
    destruct (Path_mkdir _ false true w2) as [[[]|e] w3] eqn:E3; [|intros [=]].
    intros [= <- <-].
    apply (Path_mkdir_fresh _ _ _ _ Hn) in E3 as [(_ & Hf3 & Hc3)|(e & [=] & _)].
    unfold stat. rewrite !Hk by congruence. split.
    + destruct (fs w !! ("cache" :: c :: parent)) as [n|] eqn:T; [|reflexivity].
      destruct (Hwf _ _ _ T) as [dw T']. rewrite K in F1. congruence.
    + rewrite Hf3, Hk by congruence. apply lookup_insert_eq.
  - rewrite joinpath_empty. intros [= <- <-]. unfold stat.
    assert (key w2 (Path_of t) = key w (Path_of t)) as ->
      by (unfold key; now rewrite Hc2, F4).
    rewrite Hf2, F2. split; [assumption | apply lookup_insert_eq].
Qed.

Lemma stat_dir_writable p w :
  stat p w = Some (Dir true) -> is_dir_at p w = true /\ writable_at p w = true.
Proof. unfold is_dir_at, writable_at. now intros ->. Qed.

(** What the body returns is a writable directory when it returns. *)
Lemma sxs_directory_body_result directory_type persistent w d w' :
  fs_wf (fs w) ->
  sxs_directory_body sxs_directory directory_type persistent w = (Ok d, w') ->
  is_dir_at d w' = true /\ writable_at d w' = true.
Proof.
  intros Hwf H. pose proof (sxs_directory_body_valid _ _ _ _ _ _ H) as Hv.
  rewrite sxs_directory_body_eq in H by assumption.
  destruct (first_tier _ _ w) as [[s|e] w1] eqn:E1; [|discriminate].
  pose proof (first_tier_evolves _ _ _ _ _ E1) as V1.
  destruct (found_of s) as [d0|] eqn:F.
  { injection H as <- <-. eapply first_tier_found; eauto. }
  assert (persistent = true -> is_Some (unwritable_of s)) as Hu
    by (eapply first_tier_unwritable; eauto).
  destruct (String.eqb directory_type "cache").
  - destruct (nested_cache _ _ w1) as [[[d1|]|e] w2] eqn:E2; try discriminate;
      pose proof (nested_cache_evolves _ _ _ _ E2) as V2.
    + injection H as <- <-. eapply nested_cache_found, E2.
    + eapply stat_dir_writable,
        (temporary_directory_result _ _ _ w2 d w' Hv (ev_wf _ _ V2 (ev_wf _ _ V1 Hwf)) Hu H).
  - eapply stat_dir_writable,
      (temporary_directory_result _ _ _ w1 d w' Hv (ev_wf _ _ V1 Hwf) Hu H).
Qed.

(** ** Where a call can raise *)

Lemma candidate_throws directory_type suffix :
  throws (eq home_unknown) (candidate directory_type suffix).
Proof.
  assert (forall p, throws (eq home_unknown) (Path_expanduser p)) as Hx
    by apply Path_expanduser_throws.
  assert (throws (eq home_unknown) Path_home) as Hh by apply Path_expanduser_throws.
  unfold candidate.
  repeat first
    [ assumption | apply Hx | apply throws_ret | apply throws_get
    | apply throws_bind; [|intros ?]
    | match goal with |- throws _ (if ?b then _ else _) => destruct b end ].
Qed.

Lemma make_writable_throws P sxs_dir parents : throws P (make_writable sxs_dir parents).
Proof.
  intros w e w' H. destruct (make_writable_total sxs_dir parents w) as (b & w1 & E). congruence.
Qed.

Lemma first_tier_throws directory_type persistent :
  throws (eq home_unknown) (first_tier directory_type persistent).
Proof.
  unfold first_tier, persistent_search. destruct persistent; [|apply throws_ret].
  repeat first
    [ apply candidate_throws | apply make_writable_throws | apply throws_ret
    | apply throws_bind; [|intros ?] ].
Qed.

Lemma temporary_directory_raised directory_type persistent u w e w' :
  valid directory_type -> (persistent = true -> is_Some u) ->
  temporary_directory directory_type (suffix_of directory_type) persistent u w = (Raise e, w') ->
  raised_at e w'.
Proof.
  intros Hv Hu. rewrite temporary_directory_eq by assumption.
  destruct (tempfile_mkdtemp "sxs-" w) as [[t|e1] w1] eqn:E.
  - cbn zeta. unfold suffix_of.
    destruct (String.eqb directory_type "cache") eqn:C; [|intros [=]].
    apply String.eqb_eq in C as ->.
    destruct (Path_mkdir _ _ _ _) as [[[]|e3] w3] eqn:E3; intros [= <- <-].
    eapply at_final_mkdir; [eapply Path_mkdir_throws, E3 | | exact E3].
    unfold announced. destruct persistent, u; wsimpl; apply lookup_insert_eq.
  - intros [= <- <-]. eapply at_mkdtemp; [eapply tempfile_mkdtemp_throws, E | exact E].
Qed.

Lemma sxs_directory_body_raised self directory_type persistent w e w' :
  valid directory_type ->
  (forall w e w', self (CallKw "config" persistent) w = (Raise e, w') -> raised_at e w') ->
  sxs_directory_body self directory_type persistent w = (Raise e, w') ->
  raised_at e w'.
Proof.
  intros Hv Hself. rewrite sxs_directory_body_eq by assumption.
  destruct (first_tier _ _ w) as [[s|e1] w1] eqn:E1.
  2:{ intros [= <- <-]. apply at_expanduser. symmetry. eapply first_tier_throws, E1. }
  destruct (found_of s) eqn:F; [intros [=]|].
  assert (persistent = true -> is_Some (unwritable_of s)) as Hu
    by (eapply first_tier_unwritable; eauto).
  destruct (String.eqb directory_type "cache").
  - destruct (nested_cache self persistent w1) as [[[d|]|e2] w2] eqn:E2.
    + intros [=].
    + now apply temporary_directory_raised.
    + intros [= <- <-]. unfold nested_cache, bind in E2.
      destruct (self _ w1) as [[c|e3] w3] eqn:E3.
      * destruct (make_writable_total (c </> Path_of "cache") false w3) as (b & w4 & E4).
        rewrite E4 in E2. discriminate.
      * injection E2 as <- <-. eapply Hself, E3.
  - now apply temporary_directory_raised.
Qed.

Lemma lru_cache_raised f a w e w' :
  lru_cache maxsize f a w = (Raise e, w') -> f a w = (Raise e, w').
Proof.
  unfold lru_cache. destruct (cache_get a (memo w)); [intros [=]|].
  destruct (f a w) as [[v|e1] w1]; [|tauto]. destruct (cache_get a (memo w1)); intros [=].
Qed.

Lemma sxs_directory_raised a w e w' :
  valid (args_directory_type a) -> sxs_directory a w = (Raise e, w') -> raised_at e w'.
Proof.
  assert (forall persistent w e w',
            sxs_directory (CallKw "config" persistent) w = (Raise e, w') -> raised_at e w') as Hc.
  { intros persistent w0 e0 w0'. rewrite sxs_directory_unfold. intros H.
    apply lru_cache_raised in H. simpl in H.
    rewrite (sxs_directory_body_ext _ (fun _ => ret Path_empty)) in H by discriminate.
    eapply sxs_directory_body_raised in H; [assumption | now right | discriminate]. }
  intros Hv. rewrite sxs_directory_unfold. intros H.
  apply lru_cache_raised in H. eapply sxs_directory_body_raised; eauto.
Qed.

(** C1, as amended.  A call of [sxs_directory] that is not answered from
    the cache returns a path that names, in the world the call leaves, an
    existing directory the process may write to; and when such a call
    raises, it is not for want of recursion depth. *)
Theorem resolved_directory_is_writable (a : Args) (w : World) :
  fs_wf (fs w) ->
  cache_get a (memo w) = None ->
  (forall p w', sxs_directory a w = (Ok p, w') ->
                is_dir_at p w' = true /\ writable_at p w' = true) /\
  (forall e w', sxs_directory a w = (Raise e, w') -> e <> RecursionError).
Proof.
  intros Hwf Hm. split.
  - intros p w' H. apply sxs_directory_miss_ok in H as (w1 & m & Hb & ->); [|assumption].
    apply sxs_directory_body_result in Hb; [|assumption]. exact Hb.
  - intros e w' H. destruct (decide (valid (args_directory_type a))) as [Hv|Hv].
    + destruct (sxs_directory_raised _ _ _ _ Hv H) as [-> | w0 [errno ->] _ | w0 t [errno ->] _ _];
        discriminate.
    + apply sxs_directory_miss_raise in H; [|assumption].
      rewrite sxs_directory_body_invalid in H by assumption. injection H as <- _. discriminate.
Qed.

Lemma resolved_directory_is_writable_witness :
  let r := sxs_directory (Call1 "cache") w_readonly_home in
  r.1 = Ok (Path_of "/tmp/sxs-a/cache") /\
  is_dir_at (Path_of "/tmp/sxs-a/cache") r.2 = true /\
  writable_at (Path_of "/tmp/sxs-a/cache") r.2 = true.
Proof.
  intros r. split; [vm_compute; reflexivity|].
  apply (proj1 (resolved_directory_is_writable (Call1 "cache") w_readonly_home
                  ltac:(apply fs_wfb_wf; vm_compute; reflexivity)
                  ltac:(vm_compute; reflexivity))).
  vm_compute. reflexivity.
Defined.

(** C1 as stated fails on a call answered from the cache: the directory
    returned by a first call is removed, and the second call returns its
    path all the same. *)
Lemma cached_directory_may_be_gone :
  let w1 := (sxs_directory (Call1 "config") w_linux).2 in
  let w2 := step w1 (Outside (set_fs (fs w_linux) 100)) in
  let r := sxs_directory (Call1 "config") w2 in
  (sxs_directory (Call1 "config") w_linux).1 = Ok (Path_of "/home/u/.config/sxs") /\
  r.1 = Ok (Path_of "/home/u/.config/sxs") /\
  is_dir_at (Path_of "/home/u/.config/sxs") r.2 = false.
Proof. vm_compute. repeat split. Qed.




(** ** The tiers before the temporary directory *)

Lemma sxs_directory_body_tiers directory_type persistent w :
  valid directory_type ->
  sxs_directory_body sxs_directory directory_type persistent w =
  match earlier_tiers directory_type persistent w with
  | (Ok (inl sxs_dir), w2) => (Ok sxs_dir, w2)
  | (Ok (inr u), w2) =>
      temporary_directory directory_type (suffix_of directory_type) persistent u w2
  | (Raise e, w2) => (Raise e, w2)
  end.
Proof.
  intros Hv. rewrite sxs_directory_body_eq by assumption. unfold earlier_tiers, bind at 1.
  destruct (first_tier _ _ w) as [[s|e] w1]; [|reflexivity].
  destruct (found_of s); [reflexivity|].
  destruct (String.eqb directory_type "cache"); [|reflexivity].
  unfold bind, ret. destruct (nested_cache _ _ w1) as [[[d|]|e] w2]; reflexivity.
Qed.

Lemma sxs_directory_evolves a : keeps evolves (sxs_directory a).
Proof. intros w r w' H. now apply sxs_directory_call in H as []. Qed.

#[global] Hint Resolve nested_cache_evolves first_tier_evolves sxs_directory_evolves : keeps.

Lemma earlier_tiers_evolves directory_type persistent :
  keeps evolves (earlier_tiers directory_type persistent).
Proof. unfold earlier_tiers. keeps_tac. Qed.

Lemma first_tier_true directory_type w s w1 :
  first_tier directory_type true w = (Ok s, w1) ->
  exists c b, candidate directory_type (suffix_of directory_type) w = (Ok c, w) /\
              make_writable c true w = (Ok b, w1) /\
              s = Some (if b then Found c else Unwritable c).
Proof.
  unfold first_tier, persistent_search, bind.
  destruct (candidate _ _ w) as [[c|e] w0] eqn:Ec; [|discriminate].
  pose proof (candidate_pure _ _ _ _ _ Ec) as ->.
  destruct (make_writable c true w) as [[b|e] w2] eqn:Em; [|discriminate].
  unfold ret. intros [= <- <-]. exists c, b. auto.
Qed.

(** When the call goes on to line 151 after a persistent search,
    [unwritable_dir] is the candidate of lines 116-124. *)
Lemma earlier_tiers_unwritable directory_type w u w2 :
  earlier_tiers directory_type true w = (Ok (inr u), w2) ->
  exists ud, u = Some ud /\
             candidate directory_type (suffix_of directory_type) w = (Ok ud, w).
Proof.
  unfold earlier_tiers, bind at 1.
  destruct (first_tier _ _ w) as [[s|e] w1] eqn:E1; [|discriminate].
  apply first_tier_true in E1 as (c & b & Ec & _ & ->).
  destruct b; cbn [found_of unwritable_of]; [discriminate|].
  destruct (String.eqb directory_type "cache").
  - unfold bind, ret. destruct (nested_cache _ _ w1) as [[[d|]|e] w3]; try discriminate.
    intros [= <- <-]. eauto.
  - intros [= <- <-]. eauto.
Qed.

Lemma earlier_tiers_persistent directory_type persistent w u w2 :
  earlier_tiers directory_type persistent w = (Ok (inr u), w2) ->
  persistent = true -> is_Some u.
Proof.
  intros H ->. apply earlier_tiers_unwritable in H as (ud & -> & _). now eexists.
Qed.

Lemma os_mkdir_ok p w c parent n :
  key w p = c :: parent -> fs w !! parent = Some (Dir true) ->
  fs w !! (c :: parent) = None -> inodes_free w = S n ->
  os_mkdir p w = (Ok tt, set_fs (<[c :: parent := Dir true]> (fs w)) n w).
Proof. intros K P T I. unfold os_mkdir. now rewrite K, P, T, I. Qed.

Lemma Path_mkdir_ok p parents exist_ok w c parent n :
  key w p = c :: parent -> fs w !! parent = Some (Dir true) ->
  fs w !! (c :: parent) = None -> inodes_free w = S n ->
  Path_mkdir p parents exist_ok w = (Ok tt, set_fs (<[c :: parent := Dir true]> (fs w)) n w).
Proof.
  intros K P T I. unfold Path_mkdir.
  pose proof (os_mkdir_ok (mkPath (anchored p) (rparts p)) w c parent n) as E.
  rewrite mkPath_eta in E. specialize (E K P T I). rewrite <- (mkPath_eta p) in E at 1.
  destruct (rparts p); simpl; now rewrite E.
Qed.

(** C3, as amended.  When the resolution of a call goes on to the
    temporary directory (the earlier tiers return nothing), and
    [tempfile.mkdtemp] makes [tmpdir], with room left for the [cache]
    subdirectory when the directory type is "cache", then the call returns
    [tmpdir / suffix], a directory that did not exist and now does;
    [SXS<TYPE>DIR] is set to [tmpdir]; the removal of [tmpdir] is registered;
    and one warning, naming the unwritable candidate and the variable, is
    emitted when [persistent] is true, none when it is false. *)
Theorem temporary_tier (a : Args) (w w2 w3 : World) (u : option Path) (tmpdir : string) :
  let directory_type := args_directory_type a in
  let persistent := args_persistent a in
  let sxs_dir := Path_of tmpdir </> suffix_of directory_type in
  valid directory_type ->
  fs_wf (fs w) ->
  cache_get a (memo w) = None ->
  earlier_tiers directory_type persistent w = (Ok (inr u), w2) ->
  tempfile_mkdtemp "sxs-" w2 = (Ok tmpdir, w3) ->
  (directory_type = "cache" -> inodes_free w3 <> 0%nat) ->
  exists w',
    sxs_directory a w = (Ok sxs_dir, w') /\
    stat (Path_of tmpdir) w2 = None /\
    stat (Path_of tmpdir) w' = Some (Dir true) /\
    stat sxs_dir w' = Some (Dir true) /\
    environ w' = <[override_name directory_type := tmpdir]> (environ w2) /\
    atexit w' = (atexit w2 ++ [Rmtree tmpdir])%list /\
    (persistent = false -> warnings w' = warnings w2) /\
    (persistent = true ->
     exists unwritable_dir,
       candidate directory_type (suffix_of directory_type) w = (Ok unwritable_dir, w) /\
       warnings w' = (warnings w2 ++ [message directory_type sxs_dir unwritable_dir])%list).
Proof.
  intros directory_type persistent sxs_dir Hv Hwf Hm He Ht Hroom.
  assert (fs_wf (fs w2)) as Hwf2 by (eapply earlier_tiers_evolves; eauto).
  assert (persistent = true -> is_Some u) as Hu by (eapply earlier_tiers_persistent; eauto).
  pose proof Ht as Hc. apply tempfile_mkdtemp_ok in Hc
    as [(c & parent & K & P) F1 F2 F3 F4 [Q1 Q2 Q3 Q4]].
  set (w4 := announced directory_type sxs_dir persistent u tmpdir w3).
  assert (fs w4 = fs w3 /\ cwd w4 = cwd w3 /\ inodes_free w4 = inodes_free w3 /\
          environ w4 = <[override_name directory_type := tmpdir]> (environ w2) /\
          atexit w4 = (atexit w2 ++ [Rmtree tmpdir])%list /\
          (persistent = false -> warnings w4 = warnings w2) /\
          (persistent = true ->
           exists unwritable_dir,
             candidate directory_type (suffix_of directory_type) w = (Ok unwritable_dir, w) /\
             warnings w4 = (warnings w2 ++ [message directory_type sxs_dir unwritable_dir])%list))
    as (A1 & A2 & A3 & A4 & A5 & A6 & A7).
  { unfold w4, announced. destruct persistent eqn:Ep.
    - apply earlier_tiers_unwritable in He as (ud & -> & Hcand). wsimpl.
      rewrite Q1, Q3, Q4. repeat split; try discriminate. intros _. eauto.
    - destruct u; wsimpl; rewrite Q1, Q3, Q4; repeat split; discriminate. }
  assert (forall w0, cwd w0 = cwd w2 -> key w0 (Path_of tmpdir) = c :: parent) as Kt.
  { intros w0 E. rewrite <- K. unfold key. now rewrite E. }
  assert (exists w5,
            sxs_directory_body sxs_directory directory_type persistent w = (Ok sxs_dir, w5) /\
            cwd w5 = cwd w2 /\ environ w5 = environ w4 /\ atexit w5 = atexit w4 /\
            warnings w5 = warnings w4 /\
            fs w5 !! (c :: parent) = Some (Dir true) /\
            fs w5 !! key w5 sxs_dir = Some (Dir true)) as (w5 & Hb & B1 & B2 & B3 & B4 & B5 & B6).
  { rewrite sxs_directory_body_tiers, He, temporary_directory_eq, Ht by assumption.
    cbn zeta. fold sxs_dir. fold w4. unfold sxs_dir, suffix_of in *.
    destruct (String.eqb directory_type "cache") eqn:C.
    - apply String.eqb_eq in C. rewrite Path_of_cache in *.
      assert (key w4 (Path_of tmpdir </> mkPath false ["cache"]) = "cache" :: c :: parent) as K4.
      { rewrite key_child by reflexivity. f_equal. apply Kt. congruence. }
      destruct (inodes_free w3) as [|n] eqn:I; [now destruct (Hroom C)|].
      erewrite Path_mkdir_ok; [|exact K4| | |rewrite A3; reflexivity].
      + eexists. split; [reflexivity|]. wsimpl. rewrite key_child by reflexivity.
        rewrite (Kt w4) by congruence.
        repeat split; try congruence.
        * rewrite lookup_insert_ne by congruence. rewrite A1, F2, K. apply lookup_insert_eq.
        * apply lookup_insert_eq.
      + rewrite A1, F2, K. apply lookup_insert_eq.
      + rewrite A1, F2, K, lookup_insert_ne by congruence.
        destruct (fs w2 !! ("cache" :: c :: parent)) as [nd|] eqn:T; [|reflexivity].
        destruct (Hwf2 _ _ _ T) as [dw T']. rewrite K in F1. congruence.
    - rewrite joinpath_empty in *. exists w4. split; [reflexivity|].
      rewrite (Kt w4) by congruence. rewrite A1, F2, K.
      repeat split; try congruence; apply lookup_insert_eq. }
  destruct (sxs_directory_miss_body a w sxs_dir w5 Hm Hb) as [m Hcall].
  exists (set_memo m w5). split; [exact Hcall|]. unfold stat. wsimpl.
  rewrite (Kt w5 B1), B2, B3, B4, B5, B6.
  repeat split; assumption.
Qed.

Lemma temporary_tier_witness :
  exists w',
    sxs_directory (Call1 "cache") w_roomy = (Ok (Path_of "/tmp/sxs-a/cache"), w') /\
    environ w' !! "SXSCACHEDIR" = Some "/tmp/sxs-a" /\
    atexit w' = [Rmtree "/tmp/sxs-a"] /\
    warnings w' = [message "cache" (Path_of "/tmp/sxs-a/cache") (Path_of "/Users/u/.sxs/cache")].
Proof.
  pose (w2 := (earlier_tiers "cache" true w_roomy).2).
  pose (w3 := (tempfile_mkdtemp "sxs-" w2).2).
  destruct (temporary_tier (Call1 "cache") w_roomy w2 w3
              (Some (Path_of "/Users/u/.sxs/cache")) "/tmp/sxs-a")
    as (w' & H1 & _ & _ & _ & H2 & H3 & _ & H4).
  - apply (bool_decide_unpack _). vm_compute. exact I.
  - apply fs_wfb_wf. vm_compute. reflexivity.
  - vm_compute. reflexivity.
  - vm_compute. reflexivity.
  - vm_compute. reflexivity.
  - intros _. vm_compute. discriminate.
  - exists w'. split; [exact H1|]. split; [rewrite H2; vm_compute; reflexivity|].
    split; [rewrite H3; vm_compute; reflexivity|].
    destruct (H4 eq_refl) as (ud & Hc & Hw). rewrite Hw.
    assert (ud = Path_of "/Users/u/.sxs/cache") as ->.
    { assert (candidate "cache" (suffix_of "cache") w_roomy
              = (Ok (Path_of "/Users/u/.sxs/cache"), w_roomy)) as E by (vm_compute; reflexivity).
      simpl in Hc. congruence. }
    vm_compute. reflexivity.
Defined.

(** C3 as stated fails where it says "including when persistent is false":
    the call goes on to the temporary directory, returns it and sets the
    variable, and no warning is emitted. *)
Lemma no_warning_when_not_persistent :
  let r := sxs_directory (Call2 "config" false) w_linux in
  earlier_tiers "config" false w_linux = (Ok (inr None), w_linux) /\
  r.1 = Ok (Path_of "/tmp/sxs-a") /\
  environ r.2 !! "SXSCONFIGDIR" = Some "/tmp/sxs-a" /\
  warnings w_linux = [] /\
  warnings r.2 = [].
Proof. vm_compute. repeat split. Qed.

(** C4, as amended.  In a call for the cache directory that is not
    answered from the cache and whose persistent search returns nothing
    (the candidate is not a writable directory, or [persistent] is false),
    the config directory is resolved by a call of [sxs_directory] with the
    same persistent flag, and when its [cache] subdirectory can be created
    and is a writable directory, that subdirectory is what the call
    returns. *)
Theorem cache_nests_under_config (a : Args) (w w1 w2 w3 : World)
    (s : option Searched) (c : Path) :
  args_directory_type a = "cache" ->
  cache_get a (memo w) = None ->
  first_tier "cache" (args_persistent a) w = (Ok s, w1) ->
  found_of s = None ->
  sxs_directory (CallKw "config" (args_persistent a)) w1 = (Ok c, w2) ->
  Path_mkdir (c </> Path_of "cache") false true w2 = (Ok tt, w3) ->
  writable_at (c </> Path_of "cache") w3 = true ->
  is_dir_at (c </> Path_of "cache") w3 = true ->
  exists m, sxs_directory a w = (Ok (c </> Path_of "cache"), set_memo m w3).
Proof.
  intros Hd Hm H1 Hf H2 H3 Hw Hi. apply sxs_directory_miss_body; [assumption|].
  rewrite Hd, sxs_directory_body_eq, H1, Hf by now left. simpl String.eqb. cbv iota.
  unfold nested_cache, bind. rewrite H2.
  unfold make_writable, try_except_OSError. rewrite H3.
  unfold bind, os_access_W_OK, Path_is_dir, get, ret. now rewrite Hw, Hi.
Qed.

Lemma cache_nests_under_config_witness :
  exists w3 m, sxs_directory (Call1 "cache") w_readonly_home
               = (Ok (Path_of "/tmp/sxs-a" </> Path_of "cache"), set_memo m w3).
Proof.
  pose (w2 := (sxs_directory (CallKw "config" true) w_readonly_home).2).
  pose (w3 := (Path_mkdir (Path_of "/tmp/sxs-a/cache") false true w2).2).
  exists w3.
  apply (cache_nests_under_config (Call1 "cache") w_readonly_home w_readonly_home w2 w3
           (Some (Unwritable (Path_of "/home/u/.cache/sxs"))) (Path_of "/tmp/sxs-a")).
  - reflexivity.
  - vm_compute. reflexivity.
  - vm_compute. reflexivity.
  - reflexivity.
  - vm_compute. reflexivity.
  - vm_compute. reflexivity.
  - vm_compute. reflexivity.
  - vm_compute. reflexivity.
Defined.

(** C4 as stated fails on a call answered from the cache: the cache
    directory of a first call has become unwritable, its [cache]
    subdirectory under the config directory could be made, and the second
    call returns the path it has stored. *)
Lemma cached_cache_directory_is_kept :
  let w1 := (sxs_directory (Call1 "cache") w_linux).2 in
  let w2 := step w1 (Outside (set_fs (fs w_readonly_home) 100)) in
  let w3 := (sxs_directory (CallKw "config" true) w2).2 in
  (sxs_directory (Call1 "cache") w_linux).1 = Ok (Path_of "/home/u/.cache/sxs") /\
  (first_tier "cache" true w2).1 = Ok (Some (Unwritable (Path_of "/home/u/.cache/sxs"))) /\
  (sxs_directory (CallKw "config" true) w2).1 = Ok (Path_of "/tmp/sxs-a") /\
  (make_writable (Path_of "/tmp/sxs-a/cache") false w3).1 = Ok true /\
  (sxs_directory (Call1 "cache") w2).1 = Ok (Path_of "/home/u/.cache/sxs").
Proof. vm_compute. repeat split. Qed.

Lemma candidate_override directory_type suffix w s p :
  environ w !! override_name directory_type = Some s -> s <> "" ->
  Path_expanduser (Path_of s) w = (Ok p, w) ->
  candidate directory_type suffix w = (Ok (mkPath true (key w p)), w).
Proof.
  intros He Hs Hx. unfold candidate, bind at 1, os_getenv, get. rewrite He.
  unfold truthy, Str.nonempty. apply String.eqb_neq in Hs. rewrite Hs.
  cbn [negb default from_option id]. unfold bind. rewrite Hx. reflexivity.
Qed.

(** C7, as amended.  With [persistent] true and a valid directory type,
    when [SXS<TYPE>DIR] is set to a string that, with [~] expanded and the
    path resolved, names a writable directory, a call that is not answered
    from the cache returns that directory: the XDG variable, the home
    defaults and the platform are not looked at, and nothing but the cache
    changes. *)
Theorem override_is_chosen (a : Args) (w : World) (s : string) (p : Path) :
  let sxs_dir := mkPath true (key w p) in
  valid (args_directory_type a) ->
  args_persistent a = true ->
  fs_wf (fs w) ->
  cache_get a (memo w) = None ->
  environ w !! override_name (args_directory_type a) = Some s ->
  s <> "" ->
  Path_expanduser (Path_of s) w = (Ok p, w) ->
  is_dir_at sxs_dir w = true ->
  writable_at sxs_dir w = true ->
  exists m, sxs_directory a w = (Ok sxs_dir, set_memo m w).
Proof.
  intros sxs_dir Hv Hp Hwf Hm He Hs Hx Hi Hw. apply sxs_directory_miss_body; [assumption|].
  rewrite sxs_directory_body_eq, Hp by assumption.
  unfold first_tier, persistent_search, bind.
  rewrite (candidate_override _ _ _ _ _ He Hs Hx).
  fold sxs_dir. now rewrite make_writable_existing.
Qed.

Lemma override_is_chosen_witness :
  exists m, sxs_directory (Call2 "cache" true) w_override
            = (Ok (Path_of "/home/u/sxs-cache"), set_memo m w_override).
Proof.
  apply (override_is_chosen (Call2 "cache" true) w_override "~/data/../sxs-cache"
           (Path_of "/home/u/data/../sxs-cache")).
  - apply (bool_decide_unpack _). vm_compute. exact I.
  - reflexivity.
  - apply fs_wfb_wf. vm_compute. reflexivity.
  - vm_compute. reflexivity.
  - vm_compute. reflexivity.
  - discriminate.
  - vm_compute. reflexivity.
  - vm_compute. reflexivity.
  - vm_compute. reflexivity.
Defined.

(** C7 as stated fails on a call answered from the cache: the variable is
    set to a writable directory after a first call, and the second call
    returns the directory it has stored. *)
Lemma cached_directory_hides_override :
  let w1 := (sxs_directory (Call1 "cache") w_linux).2 in
  let w2 := step w1 (Outside (fun w => set_environ (<["SXSCACHEDIR" := "/tmp"]> (environ w)) w)) in
  (sxs_directory (Call1 "cache") w_linux).1 = Ok (Path_of "/home/u/.cache/sxs") /\
  environ w2 !! "SXSCACHEDIR" = Some "/tmp" /\
  is_dir_at (Path_of "/tmp") w2 = true /\
  writable_at (Path_of "/tmp") w2 = true /\
  (sxs_directory (Call1 "cache") w2).1 = Ok (Path_of "/home/u/.cache/sxs").
Proof. vm_compute. repeat split. Qed.

(** C8, as amended.  In a call with [persistent] false that runs the
    resolution, nothing of the persistent search is done.  For "config" the
    call ends as the temporary tier does in the world the call found.  For
    "cache" the config directory is resolved by a call with [persistent]
    false; the call returns its [cache] subdirectory when that can be
    created and is a writable directory, and otherwise ends as the
    temporary tier does. *)
Theorem without_persistence (a : Args) (w : World) :
  args_persistent a = false ->
  cache_get a (memo w) = None ->
  (args_directory_type a = "config" ->
   ends_as a w (temporary_directory "config" Path_empty false None) w) /\
  (args_directory_type a = "cache" ->
   forall c w1, sxs_directory (CallKw "config" false) w = (Ok c, w1) ->
   forall b w2, make_writable (c </> Path_of "cache") false w1 = (Ok b, w2) ->
     if b then exists m, sxs_directory a w = (Ok (c </> Path_of "cache"), set_memo m w2)
     else ends_as a w (temporary_directory "cache" (Path_of "cache") false None) w2).
Proof.
  intros Hp Hm. split.
  - intros Hd. unfold ends_as.
    destruct (temporary_directory "config" Path_empty false None w) as [[d|e] w'] eqn:E.
    + apply sxs_directory_miss_body; [assumption|].
      now rewrite Hd, Hp, sxs_directory_body_eq by now right.
    + apply sxs_directory_miss_raise; [assumption|].
      now rewrite Hd, Hp, sxs_directory_body_eq by now right.
  - intros Hd c w1 H1 b w2 H2.
    assert (sxs_directory_body sxs_directory "cache" false w =
            if b then (Ok (c </> Path_of "cache"), w2)
            else temporary_directory "cache" (Path_of "cache") false None w2) as Hb.
    { rewrite sxs_directory_body_eq by now left. simpl.
      unfold nested_cache, bind. rewrite H1, H2. unfold ret. now destruct b. }
    destruct b.
    + apply sxs_directory_miss_body; [assumption|]. now rewrite Hd, Hp.
    + unfold ends_as.
      destruct (temporary_directory "cache" (Path_of "cache") false None w2) as [[d|e] w'] eqn:E.
      * apply sxs_directory_miss_body; [assumption|]. now rewrite Hd, Hp.
      * apply sxs_directory_miss_raise; [assumption|]. now rewrite Hd, Hp.
Qed.

Lemma without_persistence_witness :
  exists m w2, sxs_directory (Call2 "cache" false) w_linux
               = (Ok (Path_of "/tmp/sxs-a" </> Path_of "cache"), set_memo m w2).
Proof.
  pose (w1 := (sxs_directory (CallKw "config" false) w_linux).2).
  pose (w2 := (make_writable (Path_of "/tmp/sxs-a" </> Path_of "cache") false w1).2).
  destruct (proj2 (without_persistence (Call2 "cache" false) w_linux eq_refl
                     ltac:(vm_compute; reflexivity))
              eq_refl (Path_of "/tmp/sxs-a") w1 ltac:(vm_compute; reflexivity)
              true w2 ltac:(vm_compute; reflexivity)) as [m H].
  exists m, w2. exact H.
Defined.

(** C8 as stated fails where the cache directory is said to lie under the
    config directory whatever happens: the temporary config directory of an
    earlier call has been removed, the call for "config" still answers with
    it, and the call for "cache" returns a directory under a new temporary
    root. *)
Lemma cache_outside_config :
  let w1 := (sxs_directory (CallKw "config" false) w_linux).2 in
  let w2 := step w1 (Outside (set_fs (fs w_linux) 100)) in
  let r := sxs_directory (Call2 "cache" false) w2 in
  (sxs_directory (CallKw "config" false) w_linux).1 = Ok (Path_of "/tmp/sxs-a") /\
  r.1 = Ok (Path_of "/tmp/sxs-b/cache") /\
  (sxs_directory (CallKw "config" false) r.2).1 = Ok (Path_of "/tmp/sxs-a").
Proof. vm_compute. repeat split. Qed.

(** ** read_config and write_config *)

Lemma json_load_Path p w :
  json_load (ObjPath p) w = (Raise (AttributeError "'PosixPath' object has no attribute 'read'"), w).
Proof. reflexivity. Qed.

Lemma py_open_dict d mode w :
  py_open (ObjValue (VDict d)) mode w
  = (Raise (AttributeError "'dict' object has no attribute 'open'"), w).
Proof. reflexivity. Qed.

Lemma Path_exists_eq p w :
  Path_exists p w = (Ok (bool_decide (is_Some (stat p w))), w).
Proof. reflexivity. Qed.

Lemma bool_decide_stat p w :
  bool_decide (is_Some (stat p w)) = false <-> stat p w = None.
Proof. rewrite bool_decide_eq_false, <- eq_None_not_Some. reflexivity. Qed.

Lemma read_config_eq k default w d w1 :
  sxs_directory (Call1 "config") w = (Ok d, w1) ->
  read_config k default w =
  if bool_decide (is_Some (stat (d </> Path_of "config.json") w1))
  then (Raise no_read, w1)
  else (Ok (match k with None => VDict [] | Some _ => default end), w1).
Proof.
  intros H. unfold read_config, bind at 1. rewrite H.
  unfold bind at 1. rewrite Path_exists_eq.
  destruct (bool_decide _).
  - unfold bind. now rewrite json_load_Path.
  - unfold bind, ret. now destruct k.
Qed.

Lemma write_config_eq kwargs w d w1 :
  sxs_directory (Call1 "config") w = (Ok d, w1) ->
  write_config kwargs w =
  (Raise (if bool_decide (is_Some (stat (d </> Path_of "config.json") w1))
          then no_read else no_open), w1).
Proof.
  intros H. unfold write_config, bind at 1. rewrite H.
  unfold bind at 1. rewrite Path_exists_eq.
  destruct (bool_decide _).
  - unfold bind. now rewrite json_load_Path.
  - reflexivity.
Qed.

Lemma config_raise {A} (m : Path -> M A) w e w1 :
  sxs_directory (Call1 "config") w = (Raise e, w1) ->
  bind (sxs_directory (Call1 "config")) m w = (Raise e, w1).
Proof. intros H. unfold bind. now rewrite H. Qed.

(** C10.  When [sxs_directory("config")] returns, [read_config] raises
    the [AttributeError] of [json.load] given a path if [config.json]
    exists in that directory, and otherwise returns the empty dictionary for
    the key [None] and the default for any other key; and it returns only
    when [config.json] does not exist. *)
Theorem read_config_outcomes (k : option string) (default : Value) (w : World) :
  (forall d w1, sxs_directory (Call1 "config") w = (Ok d, w1) ->
     let config_path := d </> Path_of "config.json" in
     (stat config_path w1 <> None -> read_config k default w = (Raise no_read, w1)) /\
     (stat config_path w1 = None ->
      read_config k default w
      = (Ok (match k with None => VDict [] | Some _ => default end), w1))) /\
  (forall v w', read_config k default w = (Ok v, w') ->
     exists d, sxs_directory (Call1 "config") w = (Ok d, w') /\
               stat (d </> Path_of "config.json") w' = None).
Proof.
  split.
  - intros d w1 H config_path. rewrite (read_config_eq _ _ _ _ _ H). fold config_path.
    split; intros Hs.
    + now rewrite bool_decide_eq_true_2
        by (destruct (stat config_path w1); [eauto | congruence]).
    + now rewrite (proj2 (bool_decide_stat _ _) Hs).
  - intros v w'. destruct (sxs_directory (Call1 "config") w) as [[d|e] w1] eqn:H.
    + rewrite (read_config_eq _ _ _ _ _ H).
      destruct (bool_decide _) eqn:E; [discriminate|].
      apply bool_decide_stat in E. intros [= _ <-]. eauto.
    + unfold read_config. now rewrite (config_raise _ _ _ _ H).
Qed.

Lemma read_config_outcomes_witness :
  (read_config (Some "download") VNone w_configured).1 = Raise no_read /\
  (read_config (Some "download") (VBool false) w_linux).1 = Ok (VBool false) /\
  (read_config None VNone w_linux).1 = Ok (VDict []).
Proof.
  pose (d := Path_of "/home/u/.config/sxs").
  pose (w1 := (sxs_directory (Call1 "config") w_configured).2).
  pose (w2 := (sxs_directory (Call1 "config") w_linux).2).
  assert (sxs_directory (Call1 "config") w_configured = (Ok d, w1)) as H1
    by (vm_compute; reflexivity).
  assert (sxs_directory (Call1 "config") w_linux = (Ok d, w2)) as H2
    by (vm_compute; reflexivity).
  split; [|split].
  - destruct (proj1 (read_config_outcomes (Some "download") VNone w_configured) d w1 H1)
      as [E _].
    rewrite E; [reflexivity | vm_compute; discriminate].
  - destruct (proj1 (read_config_outcomes (Some "download") (VBool false) w_linux) d w2 H2)
      as [_ E].
    rewrite E; [reflexivity | vm_compute; reflexivity].
  - destruct (proj1 (read_config_outcomes None VNone w_linux) d w2 H2) as [_ E].
    rewrite E; [reflexivity | vm_compute; reflexivity].
Defined.

(** C9, as amended.  [write_config] never returns and never creates or
    changes a regular file, [config.json] included.  When
    [sxs_directory("config")] returns, it raises [AttributeError]: that of
    [json.load] given a path when [config.json] exists, otherwise, after the
    update of the dictionary, that of [config.open].  When
    [sxs_directory("config")] raises, that exception is what it raises. *)
Theorem write_config_never_writes (kwargs : list (string * Value)) (w : World) :
  (forall d w1, sxs_directory (Call1 "config") w = (Ok d, w1) ->
     let config_path := d </> Path_of "config.json" in
     (stat config_path w1 <> None -> write_config kwargs w = (Raise no_read, w1)) /\
     (stat config_path w1 = None -> write_config kwargs w = (Raise no_open, w1))) /\
  (forall e w1, sxs_directory (Call1 "config") w = (Raise e, w1) ->
     write_config kwargs w = (Raise e, w1)) /\
  (forall r w', write_config kwargs w = (r, w') ->
     r <> Ok tt /\
     forall k fw content,
       fs w' !! k = Some (File fw content) <-> fs w !! k = Some (File fw content)).
Proof.
  split; [|split].
  - intros d w1 H config_path. rewrite (write_config_eq _ _ _ _ H). fold config_path.
    split; intros Hs.
    + now rewrite bool_decide_eq_true_2
        by (destruct (stat config_path w1); [eauto | congruence]).
    + now rewrite (proj2 (bool_decide_stat _ _) Hs).
  - intros e w1 H. unfold write_config. now rewrite (config_raise _ _ _ _ H).
  - intros r w' H.
    assert (exists r0, sxs_directory (Call1 "config") w = (r0, w') /\ r <> Ok tt) as (r0 & Hc & Hr).
    { destruct (sxs_directory (Call1 "config") w) as [[d|e] w1] eqn:E.
      - rewrite (write_config_eq _ _ _ _ E) in H. injection H as <- <-. eauto.
      - unfold write_config in H. rewrite (config_raise _ _ _ _ E) in H.
        injection H as <- <-. eauto. }
    split; [assumption|]. intros k fw content.
    apply sxs_directory_call in Hc as [[_ Hg _] _ _].
    destruct (Hg k) as [->|[Hn Hd]]; [reflexivity|]. rewrite Hn, Hd. split; discriminate.
Qed.

(** C9 as stated fails twice over.  With nowhere to write,
    [sxs_directory("config")] raises the [OSError] of [tempfile.mkdtemp] and
    so does [write_config]; and when [config.json] exists, the
    [AttributeError] is that of [json.load], raised before the update of the
    dictionary. *)
Lemma write_config_other_exceptions :
  (write_config [("download", VBool true)] w_nowhere).1 = Raise (OSError ENOENT) /\
  (write_config [("download", VBool true)] w_configured).1 = Raise no_read.
Proof. vm_compute. repeat split. Qed.

Lemma write_config_never_writes_witness :
  (write_config [("download", VBool true)] w_linux).1 = Raise no_open.
Proof.
  pose (d := Path_of "/home/u/.config/sxs").
  pose (w1 := (sxs_directory (Call1 "config") w_linux).2).
  assert (sxs_directory (Call1 "config") w_linux = (Ok d, w1)) as H
    by (vm_compute; reflexivity).
  destruct (proj1 (write_config_never_writes [("download", VBool true)] w_linux) d w1 H)
    as [_ E].
  rewrite E; [reflexivity | vm_compute; reflexivity].
Defined.

(** * Further properties *)

(** ** A relation kept by every call *)

Section Calls.
Context (R : World -> World -> Prop) `{!PreOrder R} (P : Args -> Prop).
Hypothesis R_memo : forall w m, R w (set_memo m w).
Hypothesis R_quiet : forall w w', quiet w w' -> R w w'.
Hypothesis P_nested : forall a, P a -> P (CallKw "config" (args_persistent a)).
Hypothesis R_temporary :
  forall a u, P a -> valid (args_directory_type a) ->
    (args_persistent a = true -> is_Some u) ->
    keeps R (temporary_directory (args_directory_type a) (suffix_of (args_directory_type a))
               (args_persistent a) u).

Lemma sxs_directory_body_keeps self a :
  P a ->
  (forall b, P b -> keeps R (self b)) ->
  keeps R (sxs_directory_body self (args_directory_type a) (args_persistent a)).
Proof.
  intros Pa Hself w r w'. destruct (decide (valid (args_directory_type a))) as [Hv|Hv].
  2:{ rewrite sxs_directory_body_invalid by assumption. now intros [= _ <-]. }
  rewrite sxs_directory_body_eq by assumption.
  destruct (first_tier _ _ w) as [[s|e] w1] eqn:E1;
    pose proof (R_quiet _ _ (first_tier_quiet _ _ _ _ _ E1)) as H1; [|now intros [= _ <-]].
  destruct (found_of s) eqn:F; [now intros [= _ <-]|].
  assert (args_persistent a = true -> is_Some (unwritable_of s)) as Hu
    by (eapply first_tier_unwritable; eauto).
  destruct (String.eqb (args_directory_type a) "cache").
  - unfold nested_cache, bind.
    destruct (self _ w1) as [[c|e] w2] eqn:E2;
      pose proof (Hself _ (P_nested _ Pa) _ _ _ E2) as H2; [|intros [= _ <-]; now rewrite H1].
    destruct (make_writable _ false w2) as [[b|e] w3] eqn:E3;
      pose proof (R_quiet _ _ (make_writable_quiet _ _ _ _ _ E3)) as H3;
      [|intros [= _ <-]; now rewrite H1, H2].
    unfold ret. destruct b; [intros [= _ <-]; now rewrite H1, H2|].
    intros H4. apply (R_temporary a _ Pa Hv Hu) in H4. now rewrite H1, H2, H3.
  - intros H4. apply (R_temporary a _ Pa Hv Hu) in H4. now rewrite H1.
Qed.

Lemma lru_cache_keeps f a : keeps R (f a) -> keeps R (lru_cache maxsize f a).
Proof.
  intros Hf w r w'. unfold lru_cache. destruct (cache_get a (memo w)).
  - intros [= _ <-]. apply R_memo.
  - destruct (f a w) as [[v|e] w1] eqn:E; pose proof (Hf _ _ _ E) as H1; [|now intros [= _ <-]].
    destruct (cache_get a (memo w1)); intros [= _ <-]; [assumption|].
    rewrite H1. apply R_memo.
Qed.

Lemma sxs_directory_at_keeps n a : P a -> keeps R (sxs_directory_at n a).
Proof.
  revert a. induction n as [|n IH]; intros a Pa; simpl.
  - apply keeps_raise; apply _.
  - apply (lru_cache_keeps (fun a => sxs_directory_body (sxs_directory_at n)
                                     (args_directory_type a) (args_persistent a))).
    apply sxs_directory_body_keeps; auto.
Qed.

Lemma sxs_directory_keeps a : P a -> keeps R (sxs_directory a).
Proof. apply sxs_directory_at_keeps. Qed.

End Calls.

(** ** What a call leaves alone *)

#[global] Instance other_variables_kept_preorder : PreOrder other_variables_kept.
Proof.
  split.
  - intros w name _ _. reflexivity.
  - intros w1 w2 w3 H1 H2 name Ha Hb. now rewrite H2, H1.
Qed.

Lemma temporary_directory_parts directory_type suffix persistent u w r w' :
  (persistent = true -> is_Some u) ->
  temporary_directory directory_type suffix persistent u w = (r, w') ->
  quiet w w' \/
  exists tmpdir w1 w2,
    quiet w w1 /\
    w2 = announced directory_type (Path_of tmpdir </> suffix) persistent u tmpdir w1 /\
    quiet w2 w'.
Proof.
  intros Hu. rewrite temporary_directory_eq by assumption.
  destruct (tempfile_mkdtemp "sxs-" w) as [[t|e] w1] eqn:E;
    pose proof (tempfile_mkdtemp_quiet _ _ _ _ E) as H1; [|intros [= _ <-]; now left].
  cbn zeta. right. exists t, w1. eexists. split; [assumption|]. split; [reflexivity|].
  destruct (String.eqb directory_type "cache"); [|injection H as _ <-; reflexivity].
  destruct (Path_mkdir _ _ _ _) as [[[]|e] w3] eqn:E3;
    pose proof (Path_mkdir_quiet _ _ _ _ _ _ E3); now injection H as _ <-.
Qed.

Lemma override_name_valid directory_type :
  valid directory_type ->
  override_name directory_type = "SXSCACHEDIR" \/ override_name directory_type = "SXSCONFIGDIR".
Proof. intros [-> | ->]; [left | right]; reflexivity. Qed.

(** X2.  The only environment variables a call of [sxs_directory] can set
    are [SXSCACHEDIR] and [SXSCONFIGDIR]: every other variable has the value
    it had, and none is unset. *)
Theorem other_variables_untouched (a : Args) (w : World) (name : string) :
  name <> "SXSCACHEDIR" -> name <> "SXSCONFIGDIR" ->
  environ (sxs_directory a w).2 !! name = environ w !! name.
Proof.
  destruct (sxs_directory a w) as [r w'] eqn:E. revert name.
  change (other_variables_kept w w').
  eapply (sxs_directory_keeps other_variables_kept (fun _ => True)); eauto.
  - intros w0 m name _ _. reflexivity.
  - intros w0 w1 [Q _ _ _] name _ _. now rewrite Q.
  - intros a0 u _ Hv Hu w0 r0 w1 H.
    destruct (temporary_directory_parts _ _ _ _ _ _ _ Hu H)
      as [[Q _ _ _]|(t & w2 & w3 & [Q1 _ _ _] & -> & [Q3 _ _ _])]; intros name Ha Hb.
    + now rewrite Q.
    + rewrite Q3. unfold announced.
      assert (environ (set_atexit (atexit w2 ++ [Rmtree t])
                (set_environ (<[override_name (args_directory_type a0) := t]> (environ w2)) w2))
              !! name = environ w0 !! name) as Hn.
      { wsimpl. rewrite lookup_insert_ne, Q1; [reflexivity|].
        destruct (override_name_valid _ Hv) as [-> | ->]; congruence. }
      destruct (args_persistent a0), u; exact Hn.
Qed.

Lemma other_variables_untouched_witness :
  environ (sxs_directory (Call1 "cache") w_readonly_home).2 !! "HOME" = Some "/home/u" /\
  environ (sxs_directory (Call1 "cache") w_readonly_home).2 !! "SXSCONFIGDIR"
  = Some "/tmp/sxs-a".
Proof.
  split.
  - rewrite (other_variables_untouched (Call1 "cache") w_readonly_home "HOME")
      by discriminate.
    vm_compute. reflexivity.
  - vm_compute. reflexivity.
Defined.

(** X3.  A call with [persistent] false emits no warning, whatever tier it
    ends in, the nested call for the config directory included. *)
Theorem not_persistent_is_silent (a : Args) (w : World) :
  args_persistent a = false ->
  warnings (sxs_directory a w).2 = warnings w.
Proof.
  intros Hp. destruct (sxs_directory a w) as [r w'] eqn:E.
  change (same warnings w w').
  eapply (sxs_directory_keeps (same warnings) (fun a => args_persistent a = false)); eauto.
  - reflexivity.
  - intros w0 w1 [_ _ Q _]. exact Q.
  - intros a0 u Hp0 Hv Hu w0 r0 w1 H. unfold same.
    destruct (temporary_directory_parts _ _ _ _ _ _ _ Hu H)
      as [[_ _ Q _]|(t & w2 & w3 & [_ _ Q1 _] & -> & [_ _ Q3 _])]; [assumption|].
    rewrite Q3. unfold announced. rewrite Hp0. wsimpl. exact Q1.
Qed.

Lemma not_persistent_is_silent_witness :
  (sxs_directory (Call2 "cache" false) w_readonly_home).1 = Ok (Path_of "/tmp/sxs-a/cache") /\
  warnings (sxs_directory (Call2 "cache" false) w_readonly_home).2 = [].
Proof.
  split; [vm_compute; reflexivity|].
  apply (not_persistent_is_silent (Call2 "cache" false) w_readonly_home). reflexivity.
Defined.

(** ** The cache *)

(** X4.  A call that raises stores nothing under its arguments: the next
    call with the same arguments runs the resolution again. *)
Theorem failed_call_is_not_stored (a : Args) (w w' : World) (e : Exception) :
  sxs_directory a w = (Raise e, w') ->
  cache_get a (memo w') = None.
Proof.
  intros H.
  assert (cache_get a (memo w) = None) as Hm.
  { destruct (cache_get a (memo w)) as [v|] eqn:G; [|reflexivity].
    rewrite (sxs_directory_hit _ _ _ G) in H. discriminate. }
  apply sxs_directory_miss_raise in H; [|assumption].
  apply sxs_directory_body_call in H as [_ [_ _ Hn]].
  2:{ intros w0 r0 w1. apply sxs_directory_call. }
  apply cache_get_None. intros Hk. destruct (Hn a Hk) as [Hk'|Hk'].
  - now apply cache_get_None in Hm.
  - destruct (String.eqb (args_directory_type a) "cache") eqn:C.
    + apply String.eqb_eq in C. apply list_elem_of_singleton in Hk'.
      rewrite Hk' in C. discriminate.
    + now apply elem_of_nil in Hk'.
Qed.

Lemma failed_call_is_not_stored_witness :
  cache_get (Call1 "cache") (memo (sxs_directory (Call1 "cache") w_full).2) = None.
Proof.
  apply (failed_call_is_not_stored (Call1 "cache") w_full _ (OSError ENOSPC)).
  vm_compute. reflexivity.
Defined.

(** ** The persistent candidate (lines 116-124) *)

Lemma bind_expanduser {A} p (k : Path -> M A) w :
  bind (Path_expanduser p) k w =
  match (Path_expanduser p w).1 with Ok q => k q w | Raise e => (Raise e, w) end.
Proof.
  unfold bind. destruct (Path_expanduser p w) as [[q|e] w1] eqn:E;
    apply Path_expanduser_pure in E as ->; reflexivity.
Qed.

Lemma candidate_eq directory_type suffix w :
  candidate directory_type suffix w = (candidate_value directory_type suffix w, w).
Proof.
  unfold candidate, candidate_value, bind at 1, os_getenv, get.
  destruct (truthy (environ w !! override_name directory_type)).
  - rewrite bind_expanduser. destruct (Path_expanduser _ w).1; reflexivity.
  - unfold bind at 1. cbn beta iota.
    destruct (Str.startswith (platform w) "linux" || Str.startswith (platform w) "freebsd").
    + unfold bind at 1. cbn beta iota.
      destruct (truthy (environ w !! ("XDG_" +:+ Str.upper directory_type +:+ "_HOME"))).
      * unfold bind at 1, ret at 1. rewrite bind_expanduser.
        destruct (Path_expanduser _ w).1; reflexivity.
      * unfold bind at 1, Path_home. rewrite bind_expanduser.
        destruct (Path_expanduser (Path_of "~") w).1 as [h|e]; [|reflexivity].
        unfold ret at 1. rewrite bind_expanduser.
        destruct (Path_expanduser _ w).1; reflexivity.
    + unfold Path_home. rewrite bind_expanduser.
      destruct (Path_expanduser (Path_of "~") w).1; reflexivity.
Qed.

Lemma os_path_expanduser_reads part w1 w2 :
  environ w1 !! "HOME" = environ w2 !! "HOME" ->
  pw_self w1 = pw_self w2 -> pw_name w1 = pw_name w2 ->
  os_path_expanduser part w1 = os_path_expanduser part w2.
Proof. intros H1 H2 H3. unfold os_path_expanduser. now rewrite H1, H2, H3. Qed.

Lemma Path_expanduser_reads p w1 w2 :
  environ w1 !! "HOME" = environ w2 !! "HOME" ->
  pw_self w1 = pw_self w2 -> pw_name w1 = pw_name w2 ->
  (Path_expanduser p w1).1 = (Path_expanduser p w2).1.
Proof.
  intros H1 H2 H3. unfold Path_expanduser.
  destruct (anchored p), (rev (rparts p)) as [|first rest]; try reflexivity.
  destruct (Str.startswith first "~"); [|reflexivity].
  rewrite (os_path_expanduser_reads first w1 w2) by assumption.
  destruct (Str.startswith _ "~"); reflexivity.
Qed.

(** X6.  An override variable or an XDG variable set to the empty string
    counts as unset: the candidate of lines 116-124 is what it is without the
    variable. *)
Theorem empty_variable_is_unset (directory_type : string) (suffix : Path) (w : World)
    (name : string) :
  name = override_name directory_type \/ name = xdg_name directory_type ->
  environ w !! name = Some "" ->
  (candidate directory_type suffix w).1
  = (candidate directory_type suffix (set_environ (delete name (environ w)) w)).1.
Proof.
  intros Hname He. rewrite !candidate_eq. cbn [fst].
  set (w2 := set_environ (delete name (environ w)) w).
  assert (name <> "HOME") as Hh
    by (destruct Hname as [-> | ->]; unfold override_name, xdg_name; discriminate).
  assert (forall p, (Path_expanduser p w2).1 = (Path_expanduser p w).1) as Hx.
  { intros p. apply Path_expanduser_reads; try reflexivity.
    unfold w2. wsimpl. now rewrite lookup_delete_ne. }
  assert (platform w2 = platform w) as Hp by reflexivity.
  assert (truthy (environ w2 !! override_name directory_type)
          = truthy (environ w !! override_name directory_type) /\
          (truthy (environ w !! override_name directory_type) = true ->
           environ w2 !! override_name directory_type
           = environ w !! override_name directory_type) /\
          truthy (environ w2 !! xdg_name directory_type)
          = truthy (environ w !! xdg_name directory_type) /\
          (truthy (environ w !! xdg_name directory_type) = true ->
           environ w2 !! xdg_name directory_type = environ w !! xdg_name directory_type))
    as (T1 & V1 & T2 & V2).
  { unfold w2. wsimpl. destruct Hname as [-> | ->].
    - rewrite lookup_delete_eq, He, lookup_delete_ne
        by (unfold override_name, xdg_name; discriminate).
      repeat split; try reflexivity. discriminate.
    - rewrite lookup_delete_eq, He, lookup_delete_ne
        by (unfold override_name, xdg_name; discriminate).
      repeat split; try reflexivity. discriminate. }
  unfold candidate_value. fold (xdg_name directory_type).
  rewrite T1, T2, Hp. cbn zeta.
  destruct (truthy (environ w !! override_name directory_type)).
  { rewrite V1, Hx by reflexivity. reflexivity. }
  destruct (Str.startswith (platform w) "linux" || Str.startswith (platform w) "freebsd").
  - destruct (truthy (environ w !! xdg_name directory_type)).
    + rewrite V2, Hx by reflexivity. reflexivity.
    + rewrite Hx. destruct (Path_expanduser (Path_of "~") w).1 as [h|e]; [|reflexivity].
      rewrite Hx. reflexivity.
  - rewrite Hx. reflexivity.
Qed.

Lemma empty_variable_is_unset_witness :
  (candidate "cache" (Path_of "cache")
     (set_environ (<["XDG_CACHE_HOME" := ""]> (environ w_linux)) w_linux)).1
  = Ok (Path_of "/home/u/.cache/sxs").
Proof.
  rewrite (empty_variable_is_unset "cache" (Path_of "cache")
             (set_environ (<["XDG_CACHE_HOME" := ""]> (environ w_linux)) w_linux)
             "XDG_CACHE_HOME").
  - vm_compute. reflexivity.
  - right. reflexivity.
  - vm_compute. reflexivity.
Defined.

Lemma normalise_no_dotdot l : ~ In ".." (normalise l).
Proof.
  induction l as [|c l IH]; simpl; [tauto|].
  destruct (String.eqb c "..") eqn:E.
  - intros H. apply IH. destruct (normalise l); simpl in *; tauto.
  - intros [->|H]; [|tauto]. now rewrite String.eqb_refl in E.
Qed.

(** X7.  When the override variable is set (and not empty), or on a Linux
    or FreeBSD platform, the persistent candidate is an absolute path that
    has no [..] component. *)
Theorem persistent_candidate_is_absolute (directory_type : string) (suffix : Path)
    (w w' : World) (c : Path) :
  candidate directory_type suffix w = (Ok c, w') ->
  truthy (environ w !! override_name directory_type) = true \/
  Str.startswith (platform w) "linux" || Str.startswith (platform w) "freebsd" = true ->
  anchored c = true /\ ~ In ".." (rparts c).
Proof.
  rewrite candidate_eq. intros [= H _]. revert H. unfold candidate_value. cbn zeta.
  destruct (truthy (environ w !! override_name directory_type)).
  { intros H _. destruct (Path_expanduser _ w).1 as [p|e]; [|discriminate].
    injection H as <-. split; [reflexivity | apply normalise_no_dotdot]. }
  intros H [Hf|Hl]; [discriminate|]. rewrite Hl in H.
  assert (forall p, anchored (mkPath true (key w p) </> Path_of "sxs") = true /\
                    ~ In ".." (rparts (mkPath true (key w p) </> Path_of "sxs"))) as Hs.
  { intros p. split; [reflexivity|]. simpl. intros [Hd|Hd]; [discriminate|].
    now apply normalise_no_dotdot in Hd. }
  destruct (truthy (environ w !! _)).
  - destruct (Path_expanduser _ w).1 as [p|e]; [|discriminate]. injection H as <-. apply Hs.
  - destruct (Path_expanduser (Path_of "~") w).1 as [h|e]; [|discriminate].
    destruct (Path_expanduser _ w).1 as [p|e]; [|discriminate]. injection H as <-. apply Hs.
Qed.

Lemma persistent_candidate_is_absolute_witness :
  anchored (Path_of "/home/u/sxs-cache") = true /\
  ~ In ".." (rparts (Path_of "/home/u/sxs-cache")).
Proof.
  apply (persistent_candidate_is_absolute "cache" (Path_of "cache") w_override w_override).
  - vm_compute. reflexivity.
  - left. vm_compute. reflexivity.
Defined.

(** X8.  The layout of the persistent candidates when no override is set.
    On Linux and FreeBSD the candidate is a directory named [sxs], for the
    cache as for the config directory.  On the other platforms the candidate
    for the cache is the [cache] subdirectory of the candidate for the
    config directory. *)
Theorem layout_of_candidates (w : World) :
  truthy (environ w !! "SXSCACHEDIR") = false ->
  truthy (environ w !! "SXSCONFIGDIR") = false ->
  if Str.startswith (platform w) "linux" || Str.startswith (platform w) "freebsd" then
    forall directory_type c,
      valid directory_type ->
      (candidate directory_type (suffix_of directory_type) w).1 = Ok c ->
      exists parent, rparts c = "sxs" :: parent
  else
    (candidate "cache" (suffix_of "cache") w).1
    = match (candidate "config" (suffix_of "config") w).1 with
      | Ok c => Ok (c </> Path_of "cache")
      | Raise e => Raise e
      end.
Proof.
  intros H1 H2.
  destruct (Str.startswith (platform w) "linux" || Str.startswith (platform w) "freebsd") eqn:L.
  - intros directory_type c Hv. rewrite candidate_eq. cbn [fst]. unfold candidate_value.
    cbn zeta. rewrite L.
    assert (truthy (environ w !! override_name directory_type) = false) as ->
      by (destruct Hv as [-> | ->]; assumption).
    fold (xdg_name directory_type).
    destruct (truthy (environ w !! xdg_name directory_type)).
    + destruct (Path_expanduser _ w).1 as [p|e]; [|discriminate].
      intros [= Hc]. rewrite <- Hc. now eexists.
    + destruct (Path_expanduser (Path_of "~") w).1 as [h|e]; [|discriminate].
      destruct (Path_expanduser _ w).1 as [p|e]; [|discriminate].
      intros [= Hc]. rewrite <- Hc. now eexists.
  - rewrite !candidate_eq. cbn [fst]. unfold candidate_value. cbn zeta. rewrite L.
    change (override_name "cache") with "SXSCACHEDIR".
    change (override_name "config") with "SXSCONFIGDIR". rewrite H1, H2.
    destruct (Path_expanduser (Path_of "~") w).1 as [h|e]; [|reflexivity].
    now rewrite joinpath_empty.
Qed.

Lemma layout_of_candidates_witness :
  (candidate "cache" (suffix_of "cache") w_full).1 = Ok (Path_of "/Users/u/.sxs/cache") /\
  (candidate "config" (suffix_of "config") w_full).1 = Ok (Path_of "/Users/u/.sxs").
Proof.
  pose proof (layout_of_candidates w_full ltac:(vm_compute; reflexivity)
                ltac:(vm_compute; reflexivity)) as H.
  assert ((candidate "config" (suffix_of "config") w_full).1 = Ok (Path_of "/Users/u/.sxs"))
    as E by (vm_compute; reflexivity).
  split; [|exact E].
  change (Str.startswith (platform w_full) "linux"
          || Str.startswith (platform w_full) "freebsd") with false in H.
  cbv iota in H. rewrite H, E. reflexivity.
Defined.

(** ** What the persistent search reads *)

#[global] Instance host_kept_preorder : PreOrder host_kept.
Proof.
  split.
  - intros w. now split.
  - intros w1 w2 w3 [] []. split; congruence.
Qed.

Section FileOperations.
Context (R : World -> World -> Prop) `{!PreOrder R}.
Hypothesis R_fs : forall w f n, R w (set_fs f n w).

Lemma os_mkdir_keeps p : keeps R (os_mkdir p).
Proof.
  intros w r w' H.
  apply os_mkdir_cases in H as [(e & _ & -> & _)|(c & parent & n & _ & _ & _ & _ & _ & ->)];
    [reflexivity | apply R_fs].
Qed.

Lemma Path_mkdir_here_keeps p exist_ok : keeps R (Path_mkdir_here p exist_ok).
Proof.
  intros w r w'. unfold Path_mkdir_here.
  destruct (os_mkdir p w) as [[[]|e] w1] eqn:E; pose proof (os_mkdir_keeps _ _ _ _ E).
  - now intros [= _ <-].
  - destruct e as [| [] | | | |]; try (now intros [= _ <-]);
      destruct (exist_ok && is_dir_at p w1); now intros [= _ <-].
Qed.

Lemma Path_mkdir_parts_keeps anch parts parents exist_ok :
  keeps R (Path_mkdir_parts anch parts parents exist_ok).
Proof.
  revert parents exist_ok. induction parts as [|c parent IH]; intros parents exist_ok w r w'; simpl;
    destruct (os_mkdir _ w) as [[[]|e] w1] eqn:E; pose proof (os_mkdir_keeps _ _ _ _ E) as H1.
  - now intros [= _ <-].
  - destruct e as [| [] | | | |]; try (now intros [= _ <-]);
      destruct (exist_ok && is_dir_at _ w1); now intros [= _ <-].
  - now intros [= _ <-].
  - destruct e as [| [] | | | |]; try (now intros [= _ <-]);
      try (destruct (exist_ok && is_dir_at _ w1); now intros [= _ <-]).
    destruct parents; simpl; [|now intros [= _ <-]].
    destruct (Path_mkdir_parts anch parent true true w1) as [[[]|e'] w2] eqn:E2;
      pose proof (IH _ _ _ _ _ E2) as H2.
    + intros H3. apply Path_mkdir_here_keeps in H3. now rewrite H1, H2.
    + intros [= _ <-]. now rewrite H1.
Qed.

Lemma make_writable_keeps sxs_dir parents : keeps R (make_writable sxs_dir parents).
Proof.
  apply keeps_try; [apply _ | apply Path_mkdir_parts_keeps | apply keeps_ret; apply _ |].
  intros _. apply keeps_bind; [apply _ | apply keeps_get; apply _ |].
  intros []; [apply keeps_get | apply keeps_ret]; apply _.
Qed.

End FileOperations.

Lemma make_writable_host sxs_dir parents : keeps host_kept (make_writable sxs_dir parents).
Proof. apply make_writable_keeps; [apply _|]. intros w f n. now split. Qed.

Lemma candidate_host directory_type suffix w w' :
  host_kept w w' ->
  (candidate directory_type suffix w').1 = (candidate directory_type suffix w).1.
Proof.
  intros [He Hp Hc Hs Hn]. rewrite !candidate_eq. cbn [fst].
  assert (forall p, (Path_expanduser p w').1 = (Path_expanduser p w).1) as Hx
    by (intros p; apply Path_expanduser_reads; congruence).
  assert (forall p, key w' p = key w p) as Hk by (intros p; unfold key; now rewrite Hc).
  unfold candidate_value. cbn zeta. rewrite He, Hp.
  destruct (truthy (environ w !! override_name directory_type)).
  { rewrite Hx. destruct (Path_expanduser _ w).1; [now rewrite Hk | reflexivity]. }
  destruct (Str.startswith (platform w) "linux" || Str.startswith (platform w) "freebsd").
  - destruct (truthy (environ w !! _)).
    + rewrite Hx. destruct (Path_expanduser _ w).1; [now rewrite Hk | reflexivity].
    + rewrite Hx. destruct (Path_expanduser (Path_of "~") w).1 as [h|e]; [|reflexivity].
      rewrite Hx. destruct (Path_expanduser _ w).1; [now rewrite Hk | reflexivity].
  - rewrite Hx. reflexivity.
Qed.

Lemma cache_get_removelast k (m : list (Args * Path)) :
  cache_get k m = None -> cache_get k (removelast m) = None.
Proof.
  induction m as [|[k' v] [|y l] IH]; try reflexivity.
  change (removelast ((k', v) :: y :: l)) with ((k', v) :: removelast (y :: l)).
  rewrite !cache_get_cons. destruct (decide (k' = k)); [discriminate | exact IH].
Qed.

(** A call that runs a body which leaves the cache as it is stores its
    result, and nothing under other arguments. *)
Lemma sxs_directory_miss_other a b w v w1 :
  cache_get a (memo w) = None ->
  sxs_directory_body sxs_directory (args_directory_type a) (args_persistent a) w = (Ok v, w1) ->
  memo w1 = memo w -> a <> b -> cache_get b (memo w) = None ->
  exists m, sxs_directory a w = (Ok v, set_memo m w1) /\ cache_get b m = None.
Proof.
  intros Ha Hb Hm Hne Hbn. rewrite sxs_directory_miss, Hb, Hm, Ha by assumption.
  eexists. split; [reflexivity|]. rewrite cache_get_cons.
  destruct (decide (a = b)); [contradiction|].
  destruct (maxsize <=? length (memo w))%nat; [now apply cache_get_removelast | assumption].
Qed.

(** X9.  When a call with [persistent=True] returns the directory of the
    persistent search, a later call for the same purpose written in another
    way (so that the cache has no entry for it) returns the same directory
    and leaves the file tree as the first call left it. *)
Theorem persistent_resolution_is_stable (a b : Args) (w w0 : World) (d : Path) :
  fs_wf (fs w) -> valid (args_directory_type a) ->
  args_directory_type b = args_directory_type a ->
  args_persistent a = true -> args_persistent b = true -> a <> b ->
  cache_get a (memo w) = None -> cache_get b (memo w) = None ->
  first_tier (args_directory_type a) true w = (Ok (Some (Found d)), w0) ->
  exists m m',
    sxs_directory a w = (Ok d, set_memo m w0) /\
    sxs_directory b (set_memo m w0) = (Ok d, set_memo m' w0).
Proof.
  intros Hwf Hv Hdt Hpa Hpb Hne Ha Hb Ht.
  pose proof (first_tier_quiet _ _ _ _ _ Ht) as Hq.
  pose proof (first_tier_evolves _ _ _ _ _ Ht) as Hev.
  destruct (first_tier_true _ _ _ _ Ht) as (c & wr & Hc & Hm & Hs).
  assert (wr = true /\ c = d) as [-> ->] by (destruct wr; split; congruence).
  assert (sxs_directory_body sxs_directory (args_directory_type a) (args_persistent a) w
          = (Ok d, w0)) as Hbody
    by (rewrite sxs_directory_body_eq, Hpa, Ht by assumption; reflexivity).
  destruct (sxs_directory_miss_other a b w d w0 Ha Hbody (q_memo _ _ Hq) Hne Hb)
    as (m & Hcall & Hbm).
  exists m. set (w1 := set_memo m w0).
  assert (host_kept w w1) as Hh.
  { transitivity w0; [exact (make_writable_host _ _ _ _ _ Hm) | now split]. }
  destruct (make_writable_true _ _ _ _ Hm) as [Hd Hw].
  assert (candidate (args_directory_type a) (suffix_of (args_directory_type a)) w1 = (Ok d, w1))
    as Hc1.
  { pose proof (candidate_host (args_directory_type a) (suffix_of (args_directory_type a)) _ _ Hh)
      as E.
    rewrite Hc in E. rewrite candidate_eq in E |- *. cbn [fst] in E. now rewrite E. }
  assert (make_writable d true w1 = (Ok true, w1)) as Hm1
    by (apply make_writable_existing; [exact (ev_wf _ _ Hev Hwf) | exact Hd | exact Hw]).
  assert (sxs_directory_body sxs_directory (args_directory_type b) (args_persistent b) w1
          = (Ok d, w1)) as Hbody1.
  { rewrite Hdt, Hpb, sxs_directory_body_eq by assumption.
    unfold first_tier, persistent_search, bind, ret. now rewrite Hc1, Hm1. }
  destruct (sxs_directory_miss_body b w1 d w1 Hbm Hbody1) as (m' & Hcall1).
  exists m'. split; [exact Hcall | exact Hcall1].
Qed.

Lemma persistent_resolution_is_stable_witness :
  exists w0 m m',
    sxs_directory (Call1 "config") w_linux
    = (Ok (Path_of "/home/u/.config/sxs"), set_memo m w0) /\
    sxs_directory (CallKw "config" true) (set_memo m w0)
    = (Ok (Path_of "/home/u/.config/sxs"), set_memo m' w0).
Proof.
  pose (w0 := (first_tier "config" true w_linux).2). exists w0.
  apply (persistent_resolution_is_stable (Call1 "config") (CallKw "config" true) w_linux w0
           (Path_of "/home/u/.config/sxs")).
  - apply fs_wfb_wf. vm_compute. reflexivity.
  - vm_compute. auto.
  - reflexivity.
  - reflexivity.
  - reflexivity.
  - discriminate.
  - reflexivity.
  - reflexivity.
  - vm_compute. reflexivity.
Defined.

(** ** The temporary "config" directory *)

Lemma announced_fs directory_type sxs_dir persistent u t w :
  fs (announced directory_type sxs_dir persistent u t w) = fs w.
Proof. unfold announced. now destruct persistent, u. Qed.

Lemma announced_cwd directory_type sxs_dir persistent u t w :
  cwd (announced directory_type sxs_dir persistent u t w) = cwd w.
Proof. unfold announced. now destruct persistent, u. Qed.

Lemma announced_environ directory_type sxs_dir persistent u t w :
  environ (announced directory_type sxs_dir persistent u t w) !! override_name directory_type
  = Some t.
Proof. unfold announced. destruct persistent, u; cbn; apply lookup_insert_eq. Qed.

Lemma key_cwd w w' p : cwd w' = cwd w -> key w' p = key w p.
Proof. intros H. unfold key. now rewrite H. Qed.

Lemma normalise_fixed l : ~ In ".." l -> normalise l = l.
Proof.
  induction l as [|c l IH]; intros H; [reflexivity|].
  rewrite normalise_cons.
  - f_equal. apply IH. intros Hin. apply H. now right.
  - apply String.eqb_neq. intros ->. apply H. now left.
Qed.

Lemma key_resolved w p : key w (mkPath true (key w p)) = key w p.
Proof.
  unfold key at 1. cbn [anchored rparts]. rewrite app_nil_r.
  apply normalise_fixed, normalise_no_dotdot.
Qed.

(** A call for "config" that is not answered from the cache and passes the
    persistent search without a directory: the directory is the one made by
    [tempfile.mkdtemp], and the call stores nothing under other arguments. *)
Lemma temporary_config_call a w s w0 p w' :
  args_directory_type a = "config" -> cache_get a (memo w) = None ->
  first_tier "config" (args_persistent a) w = (Ok s, w0) -> found_of s = None ->
  sxs_directory a w = (Ok p, w') ->
  exists t wt,
    created t w0 wt /\ p = Path_of t /\
    w' = set_memo (memo w')
           (announced "config" p (args_persistent a) (unwritable_of s) t wt) /\
    forall b, a <> b -> cache_get b (memo w) = None -> cache_get b (memo w') = None.
Proof.
  intros Hdt Ha Ht Hf Hcall.
  destruct (sxs_directory_miss_ok _ _ _ _ Ha Hcall) as (wb & m & Hb & ->).
  pose proof Hb as Hb'.
  rewrite Hdt, sxs_directory_body_eq, Ht, Hf in Hb' by (now right).
  change ("config" =? "cache")%string with false in Hb'. cbn match in Hb'.
  pose proof (first_tier_unwritable _ _ _ _ _ Ht Hf) as Hu.
  rewrite temporary_directory_eq in Hb' by exact Hu.
  destruct (tempfile_mkdtemp "sxs-" w0) as [[t|e] wt] eqn:Hm; [|discriminate].
  change (suffix_of "config") with Path_empty in Hb'. rewrite joinpath_empty in Hb'.
  change ("config" =? "cache")%string with false in Hb'. cbn match zeta in Hb'.
  injection Hb' as <- <-.
  exists t, wt. split; [now apply tempfile_mkdtemp_ok in Hm|]. split; [reflexivity|].
  split; [reflexivity|].
  intros b Hne Hbn.
  assert (memo (announced "config" (Path_of t) (args_persistent a) (unwritable_of s) t wt)
          = memo w) as Hmemo.
  { rewrite announced_memo.
    rewrite (q_memo _ _ (tempfile_mkdtemp_quiet _ _ _ _ Hm)).
    exact (q_memo _ _ (first_tier_quiet _ _ _ _ _ Ht)). }
  destruct (sxs_directory_miss_other a b w _ _ Ha Hb Hmemo Hne Hbn) as (m' & Hcall' & Hbm).
  rewrite Hcall in Hcall'. injection Hcall' as Hw. cbn. now rewrite Hw.
Qed.

Lemma child_not_self {A} (c : A) (l : list A) : c :: l <> l.
Proof. intros H. apply (f_equal length) in H. simpl in H. lia. Qed.

(** X10.  A call for "config" with [persistent=False] that is not answered
    from the cache returns a directory that did not exist before the call;
    after the call it is a writable directory without entries. *)
Theorem temporary_config_is_new (a : Args) (w w' : World) (p : Path) :
  fs_wf (fs w) -> args_directory_type a = "config" -> args_persistent a = false ->
  cache_get a (memo w) = None ->
  sxs_directory a w = (Ok p, w') ->
  stat p w = None /\ stat p w' = Some (Dir true) /\
  forall c, fs w' !! (c :: key w' p) = None.
Proof.
  intros Hwf Hdt Hp Ha Hcall.
  assert (first_tier "config" (args_persistent a) w = (Ok None, w)) as Ht
    by (now rewrite Hp).
  destruct (temporary_config_call a w None w p w' Hdt Ha Ht eq_refl Hcall)
    as (t & wt & Hc & -> & Hw & _).
  assert (fs w' = fs wt) as Hfs by (rewrite Hw; cbn; apply announced_fs).
  assert (forall q, key w' q = key w q) as Hk.
  { intros q. apply key_cwd. rewrite Hw. cbn. rewrite announced_cwd. apply (cr_cwd _ _ _ Hc). }
  unfold stat. rewrite Hk, Hfs, (cr_fs _ _ _ Hc). split; [apply (cr_fresh _ _ _ Hc)|].
  split; [apply lookup_insert_eq|].
  intros c. rewrite lookup_insert_ne by (symmetry; apply child_not_self).
  destruct (fs w !! (c :: key w (Path_of t))) as [n|] eqn:E; [|reflexivity].
  destruct (Hwf _ _ _ E) as (dw & Hd). rewrite (cr_fresh _ _ _ Hc) in Hd. discriminate.
Qed.

Lemma temporary_config_is_new_witness :
  let r := sxs_directory (Call2 "config" false) w_linux in
  r.1 = Ok (Path_of "/tmp/sxs-a") /\
  stat (Path_of "/tmp/sxs-a") w_linux = None /\
  stat (Path_of "/tmp/sxs-a") r.2 = Some (Dir true) /\
  forall c, fs r.2 !! (c :: key r.2 (Path_of "/tmp/sxs-a")) = None.
Proof.
  intros r. split; [vm_compute; reflexivity|].
  apply (temporary_config_is_new (Call2 "config" false) w_linux r.2 (Path_of "/tmp/sxs-a")).
  - apply fs_wfb_wf. vm_compute. reflexivity.
  - reflexivity.
  - reflexivity.
  - reflexivity.
  - vm_compute. reflexivity.
Defined.

(** X11.  Two calls for "config" with [persistent=False] that are written
    in different ways, neither of them answered from the cache, return two
    different directories, and both directories exist after the second
    call. *)
Theorem temporary_configs_differ (a b : Args) (w w1 w2 : World) (p1 p2 : Path) :
  fs_wf (fs w) ->
  args_directory_type a = "config" -> args_directory_type b = "config" ->
  args_persistent a = false -> args_persistent b = false -> a <> b ->
  cache_get a (memo w) = None -> cache_get b (memo w) = None ->
  sxs_directory a w = (Ok p1, w1) -> sxs_directory b w1 = (Ok p2, w2) ->
  p1 <> p2 /\ stat p1 w2 = Some (Dir true) /\ stat p2 w2 = Some (Dir true).
Proof.
  intros Hwf Hda Hdb Hpa Hpb Hne Ha Hb H1 H2.
  assert (first_tier "config" (args_persistent a) w = (Ok None, w)) as Hta
    by (now rewrite Hpa).
  assert (first_tier "config" (args_persistent b) w1 = (Ok None, w1)) as Htb
    by (now rewrite Hpb).
  destruct (temporary_config_call a w None w p1 w1 Hda Ha Hta eq_refl H1)
    as (t1 & wt1 & Hc1 & -> & Hw1 & Hother).
  pose proof (Hother b Hne Hb) as Hb1.
  destruct (temporary_config_call b w1 None w1 p2 w2 Hdb Hb1 Htb eq_refl H2)
    as (t2 & wt2 & Hc2 & -> & Hw2 & _).
  assert (fs w1 = fs wt1) as Hfs1 by (rewrite Hw1; cbn; apply announced_fs).
  assert (fs w2 = fs wt2) as Hfs2 by (rewrite Hw2; cbn; apply announced_fs).
  assert (forall q, key w1 q = key w q) as Hk1.
  { intros q. apply key_cwd. rewrite Hw1. cbn. rewrite announced_cwd. apply (cr_cwd _ _ _ Hc1). }
  assert (forall q, key w2 q = key w q) as Hk2.
  { intros q. rewrite <- Hk1. apply key_cwd. rewrite Hw2. cbn. rewrite announced_cwd.
    apply (cr_cwd _ _ _ Hc2). }
  assert (fs w1 !! key w (Path_of t1) = Some (Dir true)) as He1
    by (rewrite Hfs1, (cr_fs _ _ _ Hc1); apply lookup_insert_eq).
  pose proof (cr_fresh _ _ _ Hc2) as Hn2. rewrite Hk1 in Hn2.
  assert (key w (Path_of t1) <> key w (Path_of t2)) as Hkne by congruence.
  split; [congruence|]. unfold stat. rewrite !Hk2, Hfs2, (cr_fs _ _ _ Hc2), Hk1.
  split; [|apply lookup_insert_eq].
  rewrite lookup_insert_ne by congruence. exact He1.
Qed.

Lemma temporary_configs_differ_witness :
  let r1 := sxs_directory (Call2 "config" false) w_linux in
  let r2 := sxs_directory (CallKw "config" false) r1.2 in
  r1.1 = Ok (Path_of "/tmp/sxs-a") /\ r2.1 = Ok (Path_of "/tmp/sxs-b") /\
  Path_of "/tmp/sxs-a" <> Path_of "/tmp/sxs-b" /\
  stat (Path_of "/tmp/sxs-a") r2.2 = Some (Dir true) /\
  stat (Path_of "/tmp/sxs-b") r2.2 = Some (Dir true).
Proof.
  intros r1 r2. split; [vm_compute; reflexivity|]. split; [vm_compute; reflexivity|].
  apply (temporary_configs_differ (Call2 "config" false) (CallKw "config" false)
           w_linux r1.2 r2.2).
  - apply fs_wfb_wf. vm_compute. reflexivity.
  - reflexivity.
  - reflexivity.
  - reflexivity.
  - reflexivity.
  - discriminate.
  - reflexivity.
  - reflexivity.
  - vm_compute. reflexivity.
  - vm_compute. reflexivity.
Defined.

Lemma Path_of_anchored_nonempty t : anchored (Path_of t) = true -> t <> "".
Proof. intros H ->. discriminate H. Qed.

(** X12.  When the persistent search for "config" ends at a directory that
    cannot be used and the call returns a temporary directory with an
    absolute path, a later call with [persistent=True] written in another
    way finds that directory again through [SXSCONFIGDIR]: it returns a path
    to the same place, and creates nothing and warns of nothing. *)
Theorem exported_directory_is_found_again
  (a b : Args) (w w0 w1 : World) (u p : Path) :
  fs_wf (fs w) ->
  args_directory_type a = "config" -> args_directory_type b = "config" ->
  args_persistent a = true -> args_persistent b = true -> a <> b ->
  cache_get a (memo w) = None -> cache_get b (memo w) = None ->
  first_tier "config" true w = (Ok (Some (Unwritable u)), w0) ->
  sxs_directory a w = (Ok p, w1) -> anchored p = true ->
  exists q m, sxs_directory b w1 = (Ok q, set_memo m w1) /\ key w1 q = key w1 p.
Proof.
  intros Hwf Hda Hdb Hpa Hpb Hne Ha Hb Ht Hcall Hanch.
  assert (first_tier "config" (args_persistent a) w = (Ok (Some (Unwritable u)), w0)) as Hta
    by (now rewrite Hpa).
  destruct (temporary_config_call a w _ w0 p w1 Hda Ha Hta eq_refl Hcall)
    as (t & wt & Hc & -> & Hw & Hother).
  pose proof (Hother b Hne Hb) as Hb1.
  pose proof (ev_wf _ _ (sxs_directory_evolves _ _ _ _ Hcall) Hwf) as Hwf1.
  set (q := mkPath true (key w1 (Path_of t))).
  assert (candidate "config" (suffix_of "config") w1 = (Ok q, w1)) as Hcand.
  { apply candidate_override with (s := t).
    - rewrite Hw. cbn. apply announced_environ.
    - now apply Path_of_anchored_nonempty.
    - unfold Path_expanduser. now rewrite Hanch. }
  assert (stat q w1 = Some (Dir true)) as Hstat.
  { assert (fs w1 = fs wt) as Hfs by (rewrite Hw; cbn; apply announced_fs).
    assert (key w1 (Path_of t) = key w0 (Path_of t)) as Hk.
    { apply key_cwd. rewrite Hw. cbn. rewrite announced_cwd. apply (cr_cwd _ _ _ Hc). }
    unfold stat, q. rewrite key_resolved, Hfs, (cr_fs _ _ _ Hc), Hk. apply lookup_insert_eq. }
  assert (make_writable q true w1 = (Ok true, w1)) as Hmw.
  { apply make_writable_existing; [exact Hwf1 | |]; unfold is_dir_at, writable_at;
      now rewrite Hstat. }
  assert (sxs_directory_body sxs_directory (args_directory_type b) (args_persistent b) w1
          = (Ok q, w1)) as Hbody.
  { rewrite Hdb, Hpb, sxs_directory_body_eq by (now right).
    unfold first_tier, persistent_search, bind, ret. now rewrite Hcand, Hmw. }
  destruct (sxs_directory_miss_body b w1 q w1 Hb1 Hbody) as (m & Hcall1).
  exists q, m. split; [exact Hcall1 | apply key_resolved].
Qed.

Lemma exported_directory_is_found_again_witness :
  let r := sxs_directory (Call1 "config") w_readonly_home in
  r.1 = Ok (Path_of "/tmp/sxs-a") /\
  exists q m, sxs_directory (CallKw "config" true) r.2 = (Ok q, set_memo m r.2) /\
              key r.2 q = key r.2 (Path_of "/tmp/sxs-a").
Proof.
  intros r. split; [vm_compute; reflexivity|].
  pose (w0 := (first_tier "config" true w_readonly_home).2).
  apply (exported_directory_is_found_again (Call1 "config") (CallKw "config" true)
           w_readonly_home w0 r.2 (Path_of "/home/u/.config/sxs") (Path_of "/tmp/sxs-a")).
  - apply fs_wfb_wf. vm_compute. reflexivity.
  - reflexivity.
  - reflexivity.
  - reflexivity.
  - reflexivity.
  - discriminate.
  - reflexivity.
  - reflexivity.
  - vm_compute. reflexivity.
  - vm_compute. reflexivity.
  - reflexivity.
Defined.

(** ** Removal at exit *)

#[global] Instance registered_preorder : PreOrder registered.
Proof.
  split.
  - intros w. split; [auto | intros name t H1 H2; contradiction].
  - intros w1 w2 w3 [A1 B1] [A2 B2]. split; [auto|].
    intros name t H3 H1. destruct (decide (environ w2 !! name = Some t)) as [H2|H2].
    + apply A2. now apply (B1 name).
    + now apply (B2 name).
Qed.

Lemma registered_same w w' :
  environ w' = environ w -> atexit w' = atexit w -> registered w w'.
Proof. intros He Ha. split; rewrite ?He, ?Ha; [auto | intros name t H1 H2; contradiction]. Qed.

Lemma announced_registered directory_type sxs_dir persistent u t w :
  registered w (announced directory_type sxs_dir persistent u t w).
Proof.
  assert (registered w (set_atexit (atexit w ++ [Rmtree t])
            (set_environ (<[override_name directory_type := t]> (environ w)) w))) as H.
  { split; wsimpl.
    - intros x Hx. apply in_or_app. now left.
    - intros name t' H1 H2. apply in_or_app.
      destruct (decide (override_name directory_type = name)) as [<- | Hn].
      + rewrite lookup_insert_eq in H1. injection H1 as <-. right. now left.
      + rewrite lookup_insert_ne in H1 by assumption. contradiction. }
  unfold announced. destruct persistent, u; exact H.
Qed.

(** X13.  Whenever a call of [sxs_directory] leaves an environment variable
    with a new value, whether the call returns or raises, that value is a
    directory registered with [atexit] for removal. *)
Theorem exported_directory_is_registered (a : Args) (w : World) (name t : string) :
  environ (sxs_directory a w).2 !! name = Some t -> environ w !! name <> Some t ->
  In (Rmtree t) (atexit (sxs_directory a w).2).
Proof.
  destruct (sxs_directory a w) as [r w'] eqn:E. cbn [snd]. revert name t.
  assert (registered w w') as [_ H]; [|exact H].
  eapply (sxs_directory_keeps registered (fun _ => True)); eauto.
  - intros w0 m. now apply registered_same.
  - intros w0 w1 [Q _ _ Q']. now apply registered_same.
  - intros a0 u _ Hv Hu w0 r0 w1 H.
    destruct (temporary_directory_parts _ _ _ _ _ _ _ Hu H)
      as [[Q _ _ Q']|(t & w2 & w3 & [Q1 _ _ Q1'] & -> & [Q3 _ _ Q3'])].
    + now apply registered_same.
    + transitivity w2; [now apply registered_same|].
      transitivity (announced (args_directory_type a0)
                      (Path_of t </> suffix_of (args_directory_type a0))
                      (args_persistent a0) u t w2);
        [apply announced_registered | now apply registered_same].
Qed.

Lemma exported_directory_is_registered_witness :
  let w' := (sxs_directory (Call1 "cache") w_readonly_home).2 in
  environ w' !! "SXSCONFIGDIR" = Some "/tmp/sxs-a" /\ In (Rmtree "/tmp/sxs-a") (atexit w').
Proof.
  intros w'. split; [vm_compute; reflexivity|].
  apply (exported_directory_is_registered (Call1 "cache") w_readonly_home "SXSCONFIGDIR").
  - vm_compute. reflexivity.
  - vm_compute. discriminate.
Defined.

(** ** Sequences of calls to the three functions *)

Lemma read_config_world k default w :
  (read_config k default w).2 = (sxs_directory (Call1 "config") w).2.
Proof.
  destruct (sxs_directory (Call1 "config") w) as [[d|e] w1] eqn:H.
  - rewrite (read_config_eq _ _ _ _ _ H). now destruct (bool_decide _).
  - unfold read_config. now rewrite (config_raise _ _ _ _ H).
Qed.

Lemma write_config_world kwargs w :
  (write_config kwargs w).2 = (sxs_directory (Call1 "config") w).2.
Proof.
  destruct (sxs_directory (Call1 "config") w) as [[d|e] w1] eqn:H.
  - now rewrite (write_config_eq _ _ _ _ H).
  - unfold write_config. now rewrite (config_raise _ _ _ _ H).
Qed.

Lemma perform_evolves o w : evolves w (perform o w).
Proof.
  assert (forall a, evolves w (sxs_directory a w).2) as H.
  { intros a. destruct (sxs_directory a w) as [r w'] eqn:E.
    exact (sxs_directory_evolves _ _ _ _ E). }
  destruct o; cbn [perform]; rewrite ?read_config_world, ?write_config_world; apply H.
Qed.

Lemma session_evolves ops w : evolves w (session ops w).
Proof.
  revert w. induction ops as [|o ops IH]; intros w; [reflexivity|].
  cbn [session fold_left]. transitivity (perform o w); [apply perform_evolves | apply IH].
Qed.

(** X1.  No sequence of calls to [sxs_directory], [read_config] and
    [write_config], returning or raising, removes or changes anything in the
    file system or creates a regular file: every location holds what it held
    before the first call, or held nothing and holds a new writable
    directory. *)
Theorem session_keeps_what_exists (ops : list Operation) (w : World) (k : list string) :
  fs (session ops w) !! k = fs w !! k \/
  (fs w !! k = None /\ fs (session ops w) !! k = Some (Dir true)).
Proof. apply (ev_grows _ _ (session_evolves ops w)). Qed.
